(** * Canary deployment controller: model of [canary_deployment.py]

    The development follows the class [CanaryDeployment] method by
    method.  Python numbers of type [int] are [Z].  The [float] values
    (latencies in milliseconds, error rates in percent) are exact
    rationals [Q], compared with [Qeq] where Python compares with [==]:
    every finite double is a rational and doubles compare as their
    values do, so sorting and the tests [>] on recorded values are those
    of the script, while products, quotients and sums are exact here and
    rounded there; what depends on a rounded product, quotient or sum is
    stated on the doubles themselves, in [Binary64].  Dictionaries with
    string keys are [gmap string _].  The mutable object [self] together
    with the outside world (the two databases, the random generator, the
    clock, the console) is an explicit state threaded through a small
    state monad.  What the world answers to a request is read from an
    environment, so that every run of the script is the run for some
    environment.  The methods come twice: first with every database
    call completing, then, in [Checked], with the calls as they can
    raise; the second does what the first does until it raises. *)

From Stdlib Require Import ZArith QArith Qround Lia List Sorting.Sorted Sorting.Permutation.
From Stdlib Require Import Floats Uint63.
From Stdlib Require Import Lqa.
From stdpp Require Import base option list strings gmap fin_maps sorting.

Local Open Scope Z_scope.

(** ** Numbers *)

(** [int(x)] on a float: truncation toward zero. *)
Definition int_of (x : Q) : Z := Z.quot (Qnum x) (Zpos (Qden x)).

(** [sum(xs)] over floats and over ints, left to right from [0]. *)
Definition sum_Q (xs : list Q) : Q := fold_left Qplus xs 0%Q.
Definition sum_Z (xs : list Z) : Z := fold_left Z.add xs 0.

(** [len(xs)] as a Python int. *)
Definition len {A} (xs : list A) : Z := Z.of_nat (length xs).

(** [sorted(xs)]: the stable ascending arrangement.  Python's sort is
    stable and compares with [<]; a stable insertion sort computes the
    same list. *)
Fixpoint insort (x : Q) (l : list Q) : list Q :=
  match l with
  | [] => [x]
  | y :: l' => if Qle_bool x y then x :: l else y :: insort x l'
  end.

Definition sorted (xs : list Q) : list Q := foldr insort [] xs.

(** ** Data *)

(** One entry of [self.metrics[env]]: [{'success': _, 'latency': _}]. *)
Record Metric := { success : bool; latency : Q }.

(** One value of the dictionary returned by [analyze_metrics]. *)
Record Summary := {
  total_requests : Z;
  success_count : Z;
  error_rate : Q;
  avg_latency : Q;
  p95_latency : Q
}.

(** The two keys used throughout. *)
Definition stable : string := "stable".
Definition canary : string := "canary".

(** [{'stable': [], 'canary': []}] *)
Definition empty_metrics : gmap string (list Metric) :=
  <[canary := []]> (<[stable := []]> ∅).

(** ** analyze_metrics: the reduction of one list of outcomes *)

(** Subscript of the p95 element: [int(len(latencies) * 0.95)]. *)
Definition p95_index (latencies : list Q) : nat :=
  Z.to_nat (int_of (inject_Z (len latencies) * 0.95)%Q).

(** Body of the loop of [analyze_metrics] for one environment whose list
    of outcomes [ms] is not empty.  The subscript is always in range
    (lemma [p95_index_lt] below), so the default of [nth] is never
    returned. *)
Definition summarize (ms : list Metric) : Summary :=
  let successes := sum_Z (map (fun _ => 1) (filter (fun m => success m = true) ms)) in
  let total := len ms in
  let error_rate :=
    if 0 <? total
    then (inject_Z (total - successes) / inject_Z total * 100)%Q
    else 0%Q in
  let latencies := map latency ms in
  let avg_latency :=
    match latencies with
    | [] => 0%Q
    | _ => (sum_Q latencies / inject_Z (len latencies))%Q
    end in
  let p95_latency :=
    match latencies with
    | [] => 0%Q
    | _ => nth (p95_index latencies) (sorted latencies) 0%Q
    end in
  {| total_requests := total;
     success_count := successes;
     error_rate := error_rate;
     avg_latency := avg_latency;
     p95_latency := p95_latency |}.

(** One turn of [for env in ['stable', 'canary']]: an empty list is
    skipped ([continue]), otherwise [analysis[env]] is set. *)
Definition analyze_env (metrics : gmap string (list Metric))
    (analysis : gmap string Summary) (env : string) : gmap string Summary :=
  match metrics !!! env with
  | [] => analysis
  | ms => <[env := summarize ms]> analysis
  end.

Definition analyze (metrics : gmap string (list Metric)) : gmap string Summary :=
  foldl (analyze_env metrics) ∅ [stable; canary].

(** ** should_rollback: the decision *)

(** Python's [x > y] on floats. *)
Definition gtb (x y : Q) : bool :=
  match (x ?= y)%Q with Gt => true | _ => false end.

Inductive Warning := ErrorRateSpike | LatencyDegradation.

(** The decision of [should_rollback] together with the warning that is
    logged on the way to it. *)
Definition rollback_decision (analysis : gmap string Summary) : bool * list Warning :=
  match analysis !! canary, analysis !! stable with
  | Some c, Some s =>
      if gtb (error_rate c) (error_rate s * 2) then (true, [ErrorRateSpike])
      else if gtb (p95_latency c) (p95_latency s * 1.5) then (true, [LatencyDegradation])
      else (false, [])
  | _, _ => (false, [])
  end.

(** ** The object, the world and the monad of methods *)

(** What the outside world supplies for one simulated request: the value
    of [random.randint(1, 100)], whether the query went through, and the
    latency that was measured. *)
Record Request := { draw : Z; answered : bool; millis : Q }.

Record World := {
  reachable : bool;            (* do both [psycopg2.connect] calls succeed *)
  request : nat -> Request     (* the i-th request of the run *)
}.

(** What a run does to the outside, in order. *)
Inductive Event :=
| Connected (ok : bool)
| SetupDone
| CanaryChangeApplied
| Routed (percentage : Z)
| Queried (use_canary : bool) (ok : bool) (ms : Q)
| MetricsPrinted (analysis : gmap string Summary) (phase : string)
| Warned (w : Warning)
| CanaryRolledBack
| Slept
| StablePromoted.

(** The fields of [self], the number of requests issued so far and the
    events so far (oldest first). *)
Record State := {
  connected : bool;
  canary_percentage : Z;
  metrics : gmap string (list Metric);
  served : nat;
  trace : list Event
}.

Definition M (A : Type) : Type := World -> State -> A * State.

Definition ret {A} (a : A) : M A := fun _ st => (a, st).
Definition bind {A B} (m : M A) (k : A -> M B) : M B :=
  fun w st => let (a, st') := m w st in k a w st'.

Notation "x <- m ;; k" := (bind m (fun x => k))
  (at level 100, m at next level, right associativity).
Notation "m ;; k" := (bind m (fun _ => k))
  (at level 100, right associativity).

Definition emit (e : Event) : M unit := fun _ st =>
  (tt, {| connected := connected st; canary_percentage := canary_percentage st;
          metrics := metrics st; served := served st; trace := trace st ++ [e] |}).

Definition set_connected (b : bool) : M unit := fun _ st =>
  (tt, {| connected := b; canary_percentage := canary_percentage st;
          metrics := metrics st; served := served st; trace := trace st |}).

Definition set_canary_percentage (p : Z) : M unit := fun _ st =>
  (tt, {| connected := connected st; canary_percentage := p;
          metrics := metrics st; served := served st; trace := trace st |}).

Definition set_metrics (m : gmap string (list Metric)) : M unit := fun _ st =>
  (tt, {| connected := connected st; canary_percentage := canary_percentage st;
          metrics := m; served := served st; trace := trace st |}).

(** Takes the next request of the world. *)
Definition next_request : M Request := fun w st =>
  (request w (served st),
   {| connected := connected st; canary_percentage := canary_percentage st;
      metrics := metrics st; served := S (served st); trace := trace st |}).

Definition get {A} (f : State -> A) : M A := fun _ st => (f st, st).

(** [CanaryDeployment()] *)
Definition init : State :=
  {| connected := false; canary_percentage := 0; metrics := empty_metrics;
     served := 0; trace := [] |}.

(** ** The methods *)

Definition connect_all : M bool := fun w st =>
  if reachable w
  then (set_connected true ;; emit (Connected true) ;; ret true) w st
  else (emit (Connected false) ;; ret false) w st.

Definition setup : M unit := emit SetupDone.

Definition apply_canary_change : M unit := emit CanaryChangeApplied.

Definition route_traffic (percentage : Z) : M unit :=
  set_canary_percentage percentage ;; emit (Routed percentage).

(** [execute_query(query, use_canary)] for the request [r] being served:
    returns [(success, latency)]. *)
Definition execute_query (r : Request) (use_canary : bool) : M (bool * Q) :=
  emit (Queried use_canary (answered r) (millis r)) ;;
  ret (answered r, millis r).

(** [self.metrics[env].append(m)] *)
Definition append_metric (env : string) (m : Metric) : M unit :=
  ms <- get metrics ;;
  set_metrics (alter (fun l => l ++ [m]) env ms).

(** One turn of the loop of [simulate_traffic]. *)
Definition simulate_one : M unit :=
  r <- next_request ;;
  percentage <- get canary_percentage ;;
  let use_canary := draw r <=? percentage in
  result <- execute_query r use_canary ;;
  let (success, latency) := result in
  let env := if use_canary then canary else stable in
  append_metric env {| success := success; latency := latency |}.

Fixpoint simulate_traffic (total_requests : nat) : M unit :=
  match total_requests with
  | O => ret tt
  | S n => simulate_one ;; simulate_traffic n
  end.

Definition analyze_metrics : M (gmap string Summary) :=
  ms <- get metrics ;; ret (analyze ms).

Definition should_rollback (analysis : gmap string Summary) : M bool :=
  let (answer, warnings) := rollback_decision analysis in
  fold_right (fun w k => emit (Warned w) ;; k) (ret answer) warnings.

Definition rollback_canary : M unit := emit CanaryRolledBack.

Definition print_metrics (analysis : gmap string Summary) (phase : string) : M unit :=
  emit (MetricsPrinted analysis phase).

Definition sleep : M unit := emit Slept.

(** The promotion written inline at the end of [run_canary_deployment]. *)
Definition promote_stable : M unit := emit StablePromoted.

Definition run_canary_deployment : M unit :=
  ok <- connect_all ;;
  if negb ok then ret tt else
  setup ;;
  apply_canary_change ;;
  (* Stage 1: 10% traffic *)
  route_traffic 10 ;;
  simulate_traffic 200 ;;
  analysis <- analyze_metrics ;;
  print_metrics analysis "10% Traffic" ;;
  rb <- should_rollback analysis ;;
  if rb then rollback_canary else
  sleep ;;
  (* Stage 2: 50% traffic *)
  set_metrics empty_metrics ;;
  route_traffic 50 ;;
  simulate_traffic 200 ;;
  analysis <- analyze_metrics ;;
  print_metrics analysis "50% Traffic" ;;
  rb <- should_rollback analysis ;;
  if rb then rollback_canary else
  sleep ;;
  (* Stage 3: 100% traffic *)
  set_metrics empty_metrics ;;
  route_traffic 100 ;;
  simulate_traffic 200 ;;
  analysis <- analyze_metrics ;;
  print_metrics analysis "100% Traffic" ;;
  promote_stable.

(** The script: [main()]. *)
Definition run (w : World) : State := snd (run_canary_deployment w init).

(** * Vocabulary for the statements *)

(** ** Requests and windows *)

(** The requests numbered [start], ..., [start + n - 1]. *)
Definition requests (w : World) (start n : nat) : list Request :=
  map (request w) (seq start n).

(** The key under which a request is recorded at split [p]. *)
Definition label (p : Z) (r : Request) : string :=
  if draw r <=? p then canary else stable.

Definition outcome (r : Request) : Metric :=
  {| success := answered r; latency := millis r |}.

(** [self.metrics] after the requests [rs] were recorded on top of [m]. *)
Definition window (p : Z) (m : gmap string (list Metric)) (rs : list Request)
    : gmap string (list Metric) :=
  foldl (fun acc r => alter (fun l => l ++ [outcome r]) (label p r) acc) m rs.

Definition queried (p : Z) (r : Request) : Event :=
  Queried (draw r <=? p) (answered r) (millis r).

(** ** Stages of a run *)

(** The requests of the [k]-th stage (from 0) and the analysis the
    controller computes for it at split [p]. *)
Definition stage_requests (w : World) (k : nat) : list Request :=
  requests w (200 * k) 200.

Definition stage_analysis (w : World) (k : nat) (p : Z) : gmap string Summary :=
  analyze (window p empty_metrics (stage_requests w k)).

Definition stage_trace (w : World) (k : nat) (p : Z) (phase : string) : list Event :=
  Routed p :: map (queried p) (stage_requests w k)
    ++ MetricsPrinted (stage_analysis w k p) phase
    :: map Warned (snd (rollback_decision (stage_analysis w k p))).

Definition rolls_back (w : World) (k : nat) (p : Z) : bool :=
  fst (rollback_decision (stage_analysis w k p)).

(** ** What is read off a trace *)

Definition is_rollback (e : Event) : bool :=
  match e with CanaryRolledBack => true | _ => false end.

Definition is_promotion (e : Event) : bool :=
  match e with StablePromoted => true | _ => false end.

(** Number of times the rollback action was invoked. *)
Definition rollbacks (t : list Event) : nat := length (List.filter is_rollback t).

(** Was the change applied to the stable target. *)
Definition promoted (t : list Event) : bool := existsb is_promotion t.

(** The analysis reported under the heading [phase], if any. *)
Fixpoint printed (phase : string) (t : list Event) : option (gmap string Summary) :=
  match t with
  | [] => None
  | MetricsPrinted a ph :: t' => if String.eqb ph phase then Some a else printed phase t'
  | _ :: t' => printed phase t'
  end.

(** The rollout plan of the script: split and heading of each stage. *)
Definition split_of (k : nat) : Z :=
  match k with O => 10 | S O => 50 | _ => 100 end.

Definition phase_of (k : nat) : string :=
  match k with O => "10% Traffic" | S O => "50% Traffic" | _ => "100% Traffic" end.

(** Every draw is a value [random.randint(1, 100)] can return. *)
Definition draws_in_range (w : World) : Prop :=
  forall i, 1 <= draw (request w i) <= 100.

(** Requests recorded for [env] in an analysis, [0] when it is absent. *)
Definition total_of (a : gmap string Summary) (env : string) : Z :=
  from_option total_requests 0 (a !! env).

(** ** Concrete inputs *)

Definition metric (ok : bool) (ms : Q) : Metric := {| success := ok; latency := ms |}.

(** A world whose draws cycle through 1..100; [ok i] tells whether the
    i-th query goes through, every query takes 5 ms. *)
Definition cycling_world (ok : nat -> bool) : World :=
  {| reachable := true;
     request := fun i =>
       {| draw := 1 + Z.of_nat i mod 100; answered := ok i; millis := 5 |} |}.

(** Every query succeeds. *)
Definition steady_world : World := cycling_world (fun _ => true).

(** At the 10% split the even requests go to the canary, where one in
    four fails (25%), the odd ones to stable, where two of the first
    hundred fail (2%). *)
Definition degraded_canary_world : World :=
  {| reachable := true;
     request := fun i =>
       if Nat.even i
       then {| draw := 5; answered := negb (i mod 8 =? 0)%nat; millis := 5 |}
       else {| draw := 50; answered := negb (i <? 4)%nat; millis := 5 |} |}.

(** A world outside the range of [random.randint(1, 100)]: every draw
    of the first two stages and every even draw of the third is 101;
    the odd requests of the third stage draw 1 and fail. *)
Definition stray_world : World :=
  {| reachable := true;
     request := fun i =>
       if (i <? 400)%nat || Nat.even i
       then {| draw := 101; answered := true; millis := 5 |}
       else {| draw := 1; answered := false; millis := 5 |} |}.

(** Every query of the first [n] fails, the later ones succeed. *)
Definition recovering_world (n : nat) : World :=
  cycling_world (fun i => n <=? i)%nat.

(** Ten outcomes with latencies 100, 90, ..., 10, and with latencies
    10, 20, ..., 100. *)
Definition ten_outcomes : list Metric :=
  map (metric true) [100; 90; 80; 70; 60; 50; 40; 30; 20; 10]%Q.

Definition ten_ascending : list Metric :=
  map (metric true) [10; 20; 30; 40; 50; 60; 70; 80; 90; 100]%Q.

Definition summary (rate p95 : Q) : Summary :=
  {| total_requests := 100; success_count := 100; error_rate := rate;
     avg_latency := p95; p95_latency := p95 |}.

Definition both (s c : Summary) : gmap string Summary :=
  <[canary := c]> (<[stable := s]> ∅).

(** ** The arithmetic of the script in double precision

    The places where the script computes with floats, written with the
    IEEE binary64 operations, to compare rounding with the exact
    arithmetic used above. *)

Module Binary64.

(** [float(n)] for a Python int below 2^63. *)
Definition float_of_int (n : Z) : float := PrimFloat.of_uint63 (Uint63.of_Z n).

(** [int(x)] on a finite double: truncation toward zero. *)
Definition int_of_float (x : float) : Z :=
  match Prim2SF x with
  | S754_finite s m e =>
      let v := if 0 <=? e then Z.pos m * 2 ^ e else Z.pos m / 2 ^ (- e) in
      if s then - v else v
  | _ => 0
  end.

(** [int(n * 0.95)]; the literal is the double nearest to 0.95. *)
Definition p95_index (n : nat) : nat :=
  Z.to_nat (int_of_float (float_of_int (Z.of_nat n) * 0x1.e666666666666p-1)%float).

(** [(total - successes) / total * 100]: the quotient of two ints below
    2^53 is the correctly rounded quotient of the two doubles. *)
Definition error_rate_of (total successes : Z) : float :=
  (float_of_int (total - successes) / float_of_int total * 100)%float.

(** [c > s * k] *)
Definition exceeds (c s k : float) : bool := PrimFloat.ltb (s * k)%float c.

(** One entry of [self.metrics[env]] and one value of the analysis,
    with the latencies and the rates as the doubles they are. *)
Record Metric := { success : bool; latency : float }.

Record Summary := {
  total_requests : Z;
  success_count : Z;
  error_rate : float;
  avg_latency : float;
  p95_latency : float
}.

(** [sum(xs)]: left to right from the int [0], which is added as [0.0]. *)
Definition sum (xs : list float) : float := fold_left PrimFloat.add xs 0%float.

(** [sorted(xs)] for latencies, which are never NaN: the stable
    ascending arrangement, decided by [<] alone as Python does. *)
Fixpoint insort (x : float) (l : list float) : list float :=
  match l with
  | [] => [x]
  | y :: l' => if PrimFloat.ltb y x then y :: insort x l' else x :: l
  end.

Definition sorted (xs : list float) : list float := foldr insort [] xs.

(** Body of the loop of [analyze_metrics] for one environment. *)
Definition summarize (ms : list Metric) : Summary :=
  let successes := sum_Z (map (fun _ => 1) (filter (fun m => success m = true) ms)) in
  let total := len ms in
  let error_rate := if 0 <? total then error_rate_of total successes else 0%float in
  let latencies := map latency ms in
  let avg_latency :=
    match latencies with
    | [] => 0%float
    | _ => (sum latencies / float_of_int (len latencies))%float
    end in
  let p95_latency :=
    match latencies with
    | [] => 0%float
    | _ => nth (p95_index (length latencies)) (sorted latencies) 0%float
    end in
  {| total_requests := total;
     success_count := successes;
     error_rate := error_rate;
     avg_latency := avg_latency;
     p95_latency := p95_latency |}.

Definition analyze_env (metrics : gmap string (list Metric))
    (analysis : gmap string Summary) (env : string) : gmap string Summary :=
  match metrics !!! env with
  | [] => analysis
  | ms => <[env := summarize ms]> analysis
  end.

Definition analyze (metrics : gmap string (list Metric)) : gmap string Summary :=
  foldl (analyze_env metrics) ∅ [stable; canary].

(** [should_rollback]: the answer and the warnings that are logged. *)
Definition should_rollback (analysis : gmap string Summary) : bool * list Warning :=
  match analysis !! canary, analysis !! stable with
  | Some c, Some s =>
      if exceeds (error_rate c) (error_rate s) 2 then (true, [ErrorRateSpike])
      else if exceeds (p95_latency c) (p95_latency s) 1.5 then (true, [LatencyDegradation])
      else (false, [])
  | _, _ => (false, [])
  end.

(** [{'stable': [], 'canary': []}] *)
Definition empty_metrics : gmap string (list Metric) :=
  <[canary := []]> (<[stable := []]> ∅).

Definition metric (ok : bool) (ms : float) : Metric := {| success := ok; latency := ms |}.


Definition summary (rate p95 : float) : Summary :=
  {| total_requests := 100; success_count := 100; error_rate := rate;
     avg_latency := p95; p95_latency := p95 |}.

Definition both (s c : Summary) : gmap string Summary :=
  <[canary := c]> (<[stable := s]> ∅).

End Binary64.

(** * Further vocabulary *)

(** ** Further readings of a trace *)

Definition is_query (e : Event) : bool :=
  match e with Queried _ _ _ => true | _ => false end.

Definition is_report (e : Event) : bool :=
  match e with MetricsPrinted _ _ => true | _ => false end.

Definition is_change (e : Event) : bool :=
  match e with CanaryChangeApplied => true | _ => false end.

(** Number of queries executed, of stage reports printed, and of times
    the change was applied to the canary. *)
Definition queries (t : list Event) : nat := length (List.filter is_query t).
Definition reports (t : list Event) : nat := length (List.filter is_report t).
Definition changes (t : list Event) : nat := length (List.filter is_change t).

(** The splits that were routed, in order. *)
Fixpoint routed (t : list Event) : list Z :=
  match t with
  | [] => []
  | Routed p :: t' => p :: routed t'
  | _ :: t' => routed t'
  end.

(** The outcomes of the queries executed on the canary ([true]) or on
    stable ([false]), in order. *)
Fixpoint executed (on_canary : bool) (t : list Event) : list Metric :=
  match t with
  | [] => []
  | Queried use_canary ok ms :: t' =>
      if Bool.eqb use_canary on_canary
      then {| success := ok; latency := ms |} :: executed on_canary t'
      else executed on_canary t'
  | _ :: t' => executed on_canary t'
  end.

(** ** Operations that can raise *)

(** [x / y]: [None] stands for [ZeroDivisionError]. *)
Definition checked_div (x y : Q) : option Q :=
  if Qeq_bool y 0 then None else Some (x / y)%Q.

(** [l[i]] with Python's reading of a negative subscript: [None] stands
    for [IndexError]. *)
Definition subscript (l : list Q) (i : Z) : option Q :=
  let j := if i <? 0 then i + len l else i in
  if (0 <=? j) && (j <? len l) then l !! Z.to_nat j else None.

(** The body of the loop of [analyze_metrics] once more, with the
    division and the subscript as they can fail. *)
Definition summarize_checked (ms : list Metric) : option Summary :=
  let successes := sum_Z (map (fun _ => 1) (filter (fun m => success m = true) ms)) in
  let total := len ms in
  let latencies := map latency ms in
  match
    (if 0 <? total
     then (fun q => q * 100)%Q <$> checked_div (inject_Z (total - successes)) (inject_Z total)
     else Some 0%Q),
    (match latencies with
     | [] => Some 0%Q
     | _ => checked_div (sum_Q latencies) (inject_Z (len latencies))
     end),
    (match latencies with
     | [] => Some 0%Q
     | _ => subscript (sorted latencies) (int_of (inject_Z (len latencies) * 0.95)%Q)
     end)
  with
  | Some error_rate, Some avg_latency, Some p95_latency =>
      Some {| total_requests := total;
              success_count := successes;
              error_rate := error_rate;
              avg_latency := avg_latency;
              p95_latency := p95_latency |}
  | _, _, _ => None
  end.




(** ** The index in the two databases *)

(** Whether [idx_users_email_optimized] exists in the canary and in the
    stable database. *)
Record Schema := { canary_index : bool; stable_index : bool }.

(** What an event does to the index: [CREATE INDEX IF NOT EXISTS] on
    the canary ([apply_canary_change]) or on stable (the promotion) and
    [DROP INDEX IF EXISTS] on the canary ([rollback_canary]); nothing
    else touches it. *)
Definition apply_event (s : Schema) (e : Event) : Schema :=
  match e with
  | CanaryChangeApplied => {| canary_index := true; stable_index := stable_index s |}
  | CanaryRolledBack => {| canary_index := false; stable_index := stable_index s |}
  | StablePromoted => {| canary_index := canary_index s; stable_index := true |}
  | _ => s
  end.

Definition schema_after (t : list Event) (s : Schema) : Schema :=
  fold_left apply_event t s.

(** What the counts need to know of the events of one stage. *)
Definition stage_like (p : Z) (t : list Event) : Prop :=
  queries t = 200%nat /\ reports t = 1%nat /\ routed t = [p] /\
  rollbacks t = 0%nat /\ promoted t = false /\ changes t = 0%nat /\
  forall s, schema_after t s = s.

(** The number of stages a run goes through. *)
Definition stages_run (w : World) : nat :=
  if reachable w then
    if rolls_back w 0 10 then 1 else if rolls_back w 1 50 then 2 else 3
  else 0.

(** ** Further concrete inputs *)

(** Every query on the canary at the 10% split fails, every query on
    stable succeeds. *)
Definition broken_canary_world : World :=
  cycling_world (fun i => negb (Z.of_nat i mod 100 <? 10)).

(** * The methods with the exceptions they can raise

    The methods once more, with the database calls as they can fail:
    [psycopg2.connect] one by one, [cursor()] on a connection that is
    [None], and every [cursor()], [execute] and [close] outside a
    [try].  The console, the logger, the clock and the random generator
    are taken to return.  An event is recorded when the call it stands
    for has returned. *)

Declare Scope checked_scope.

Module Checked.

(** Where a database call is made: in the turn of the loop of [setup]
    for one environment, in [apply_canary_change], in the i-th call of
    [execute_query], in [rollback_canary], in the promotion. *)
Inductive Site :=
| InSetup (env : string)
| InApply
| InQuery (i : nat)
| InRollback
| InPromote.

(** The database calls that can raise: [conn.cursor()],
    [cursor.execute(...)] outside a [try], [cursor.close()], and the
    [INSERT] in the [except] branch of the i-th [execute_query]. *)
Inductive Call :=
| Cursor (s : Site)
| Execute (s : Site)
| Close (s : Site)
| Handler (i : nat).

Record World := {
  stable_up : bool;              (* does the first [psycopg2.connect] succeed *)
  canary_up : bool;              (* does the second one *)
  completes : Call -> bool;      (* does this call return, or raise *)
  incoming : nat -> Request      (* the i-th request of the run *)
}.

(** The fields of [self] ([true] for a connection that is set, [false]
    for [None]), the number of requests issued and the events so far. *)
Record State := {
  stable_conn : bool;
  canary_conn : bool;
  canary_percentage : Z;
  metrics : gmap string (list Metric);
  served : nat;
  trace : list Event
}.

(** How a call ends. *)
Inductive Outcome (A : Type) :=
| Returned (a : A)
| Raised.
Arguments Returned {A} a.
Arguments Raised {A}.

Definition M (A : Type) : Type := World -> State -> Outcome A * State.

Definition ret {A} (a : A) : M A := fun _ st => (Returned a, st).
Definition raise {A} : M A := fun _ st => (Raised, st).
Definition bind {A B} (m : M A) (k : A -> M B) : M B :=
  fun w st =>
    match m w st with
    | (Returned a, st') => k a w st'
    | (Raised, st') => (Raised, st')
    end.

Notation "x <- m ;; k" := (bind m (fun x => k))
  (at level 100, m at next level, right associativity) : checked_scope.
Notation "m ;; k" := (bind m (fun _ => k))
  (at level 100, right associativity) : checked_scope.
Local Open Scope checked_scope.

Definition get {A} (f : State -> A) : M A := fun _ st => (Returned (f st), st).

Definition emit (e : Event) : M unit := fun _ st =>
  (Returned tt,
   {| stable_conn := stable_conn st; canary_conn := canary_conn st;
      canary_percentage := canary_percentage st; metrics := metrics st;
      served := served st; trace := trace st ++ [e] |}).

Definition set_stable_conn (b : bool) : M unit := fun _ st =>
  (Returned tt,
   {| stable_conn := b; canary_conn := canary_conn st;
      canary_percentage := canary_percentage st; metrics := metrics st;
      served := served st; trace := trace st |}).

Definition set_canary_conn (b : bool) : M unit := fun _ st =>
  (Returned tt,
   {| stable_conn := stable_conn st; canary_conn := b;
      canary_percentage := canary_percentage st; metrics := metrics st;
      served := served st; trace := trace st |}).

Definition set_canary_percentage (p : Z) : M unit := fun _ st =>
  (Returned tt,
   {| stable_conn := stable_conn st; canary_conn := canary_conn st;
      canary_percentage := p; metrics := metrics st;
      served := served st; trace := trace st |}).

Definition set_metrics (m : gmap string (list Metric)) : M unit := fun _ st =>
  (Returned tt,
   {| stable_conn := stable_conn st; canary_conn := canary_conn st;
      canary_percentage := canary_percentage st; metrics := m;
      served := served st; trace := trace st |}).

(** Takes the next request of the world and its number. *)
Definition next_request : M (nat * Request) := fun w st =>
  (Returned (served st, incoming w (served st)),
   {| stable_conn := stable_conn st; canary_conn := canary_conn st;
      canary_percentage := canary_percentage st; metrics := metrics st;
      served := S (served st); trace := trace st |}).

(** A database call: it returns or it raises. *)
Definition call (c : Call) : M unit := fun w st =>
  if completes w c then (Returned tt, st) else (Raised, st).

(** [conn.cursor()] on the connection of [env]: [AttributeError] on
    [None]. *)
Definition cursor (use_canary : bool) (s : Site) : M unit :=
  conn <- get (if use_canary then canary_conn else stable_conn) ;;
  if conn : bool then call (Cursor s) else raise.

(** [CanaryDeployment()] *)
Definition init : State :=
  {| stable_conn := false; canary_conn := false; canary_percentage := 0;
     metrics := empty_metrics; served := 0; trace := [] |}.

Definition connect_all : M bool := fun w st =>
  if stable_up w then
    (set_stable_conn true ;;
     fun w st =>
       if canary_up w
       then (set_canary_conn true ;; emit (Connected true) ;; ret true) w st
       else (emit (Connected false) ;; ret false) w st) w st
  else (emit (Connected false) ;; ret false) w st.

Definition setup : M unit :=
  cursor false (InSetup stable) ;; call (Execute (InSetup stable)) ;;
  call (Close (InSetup stable)) ;;
  cursor true (InSetup canary) ;; call (Execute (InSetup canary)) ;;
  call (Close (InSetup canary)) ;;
  emit SetupDone.

Definition apply_canary_change : M unit :=
  cursor true InApply ;; call (Execute InApply) ;; emit CanaryChangeApplied ;;
  call (Close InApply).

Definition route_traffic (percentage : Z) : M unit :=
  set_canary_percentage percentage ;; emit (Routed percentage).

Definition execute_query (i : nat) (r : Request) (use_canary : bool) : M (bool * Q) :=
  cursor use_canary (InQuery i) ;;
  emit (Queried use_canary (answered r) (millis r)) ;;
  (if answered r then ret tt else call (Handler i)) ;;
  call (Close (InQuery i)) ;;
  ret (answered r, millis r).

(** [self.metrics[env].append(m)]: [KeyError] when the key is missing. *)
Definition append_metric (env : string) (m : Metric) : M unit :=
  ms <- get metrics ;;
  match ms !! env with
  | Some l => set_metrics (<[env := l ++ [m]]> ms)
  | None => raise
  end.

Definition simulate_one : M unit :=
  ir <- next_request ;;
  let (i, r) := ir in
  percentage <- get canary_percentage ;;
  let use_canary := draw r <=? percentage in
  result <- execute_query i r use_canary ;;
  let (success, latency) := result in
  let env := if use_canary then canary else stable in
  append_metric env {| success := success; latency := latency |}.

Fixpoint simulate_traffic (total_requests : nat) : M unit :=
  match total_requests with
  | O => ret tt
  | S n => simulate_one ;; simulate_traffic n
  end.

(** [self.metrics[env]] for both keys: [KeyError] when one is missing. *)
Definition analyze_metrics : M (gmap string Summary) :=
  ms <- get metrics ;;
  match ms !! stable, ms !! canary with
  | Some _, Some _ => ret (analyze ms)
  | _, _ => raise
  end.

Definition should_rollback (analysis : gmap string Summary) : M bool :=
  let (answer, warnings) := rollback_decision analysis in
  fold_right (fun w k => emit (Warned w) ;; k) (ret answer) warnings.

Definition rollback_canary : M unit :=
  cursor true InRollback ;; call (Execute InRollback) ;; emit CanaryRolledBack ;;
  call (Close InRollback).

Definition print_metrics (analysis : gmap string Summary) (phase : string) : M unit :=
  emit (MetricsPrinted analysis phase).

Definition sleep : M unit := emit Slept.

(** The promotion written inline at the end of [run_canary_deployment]. *)
Definition promote_stable : M unit :=
  cursor false InPromote ;; call (Execute InPromote) ;; emit StablePromoted ;;
  call (Close InPromote).

Definition run_canary_deployment : M unit :=
  ok <- connect_all ;;
  if negb ok then ret tt else
  setup ;;
  apply_canary_change ;;
  route_traffic 10 ;;
  simulate_traffic 200 ;;
  analysis <- analyze_metrics ;;
  print_metrics analysis "10% Traffic" ;;
  rb <- should_rollback analysis ;;
  if rb : bool then rollback_canary else
  sleep ;;
  set_metrics empty_metrics ;;
  route_traffic 50 ;;
  simulate_traffic 200 ;;
  analysis <- analyze_metrics ;;
  print_metrics analysis "50% Traffic" ;;
  rb <- should_rollback analysis ;;
  if rb : bool then rollback_canary else
  sleep ;;
  set_metrics empty_metrics ;;
  route_traffic 100 ;;
  simulate_traffic 200 ;;
  analysis <- analyze_metrics ;;
  print_metrics analysis "100% Traffic" ;;
  promote_stable.

(** The script: [main()]. *)
Definition run (w : World) : Outcome unit * State := run_canary_deployment w init.

End Checked.

(** The world of the model without exceptions that a world with them
    extends. *)
Definition plain (w : Checked.World) : World :=
  {| reachable := Checked.stable_up w && Checked.canary_up w;
     request := Checked.incoming w |}.

(** Every call completes and both databases are reachable. *)
Definition calm (requests : nat -> Request) : Checked.World :=
  {| Checked.stable_up := true; Checked.canary_up := true;
     Checked.completes := fun _ => true; Checked.incoming := requests |}.

(** As [calm], but the [CREATE INDEX] of the promotion raises. *)
Definition failing_promotion (requests : nat -> Request) : Checked.World :=
  {| Checked.stable_up := true; Checked.canary_up := true;
     Checked.completes := fun c =>
       match c with Checked.Execute Checked.InPromote => false | _ => true end;
     Checked.incoming := requests |}.

(** As [calm], but the second [psycopg2.connect] fails. *)
Definition half_connected (requests : nat -> Request) : Checked.World :=
  {| Checked.stable_up := true; Checked.canary_up := false;
     Checked.completes := fun _ => true; Checked.incoming := requests |}.

(** The state without exceptions that a state with them extends. *)
Definition plain_state (st : Checked.State) : State :=
  {| connected := Checked.stable_conn st && Checked.canary_conn st;
     canary_percentage := Checked.canary_percentage st;
     metrics := Checked.metrics st;
     served := Checked.served st;
     trace := Checked.trace st |}.

(** The two states agree on what both record. *)
Definition sim (cst : Checked.State) (st : State) : Prop :=
  Checked.canary_percentage cst = canary_percentage st /\
  Checked.metrics cst = metrics st /\
  Checked.served cst = served st /\
  Checked.trace cst = trace st.

(** [cm] does what [m] does until it raises. *)
Definition refines {A} (cm : Checked.M A) (m : M A) : Prop :=
  forall w cst st, sim cst st ->
    match cm w cst with
    | (Checked.Returned a, cst') =>
        (m (plain w) st).1 = a /\ sim cst' (m (plain w) st).2
    | (Checked.Raised, cst') =>
        trace st `prefix_of` Checked.trace cst' /\
        Checked.trace cst' `prefix_of` trace (m (plain w) st).2
    end.

(** [m] only adds events. *)
Definition extends {A} (m : M A) : Prop :=
  forall w st, trace st `prefix_of` trace (m w st).2.

(** A call that can only raise: it leaves the state as it is. *)
Definition guard (c : Checked.M unit) : Prop :=
  forall w cst, (c w cst).2 = cst.

(** * Properties *)

(** ** Numbers and sorting *)

Lemma gtb_lt (x y : Q) : gtb x y = true <-> (y < x)%Q.
Proof.
  unfold gtb. rewrite (Qgt_alt x y).
  destruct (x ?= y)%Q; split; congruence.
Qed.

Lemma gtb_le (x y : Q) : gtb x y = false <-> (x <= y)%Q.
Proof.
  rewrite <- not_true_iff_false, gtb_lt. split.
  - apply Qnot_lt_le.
  - apply Qle_not_lt.
Qed.

Lemma sum_Z_from (xs : list Z) (a : Z) : fold_left Z.add xs a = a + sum_Z xs.
Proof.
  unfold sum_Z. revert a. induction xs as [|x xs IH]; intros a; simpl.
  - lia.
  - rewrite (IH (a + x)), (IH (0 + x)). lia.
Qed.

Lemma sum_Z_ones {A} (xs : list A) : sum_Z (map (fun _ => 1) xs) = len xs.
Proof.
  unfold len. induction xs as [|x xs IH].
  - reflexivity.
  - unfold sum_Z in *. cbn [map fold_left length].
    rewrite sum_Z_from. unfold sum_Z. rewrite IH. lia.
Qed.

Lemma int_of_floor (x : Q) : (0 <= x)%Q -> int_of x = Qfloor x.
Proof.
  destruct x as [n d]. unfold Qle, int_of, Qfloor. simpl. intros H.
  apply Z.quot_div_nonneg; lia.
Qed.

(** The subscript computed by the analyzer is the floor of [0.95 * n]
    and lies inside the list. *)
Lemma p95_index_floor (latencies : list Q) :
  p95_index latencies = Z.to_nat (Qfloor (0.95 * inject_Z (len latencies))).
Proof.
  unfold p95_index. rewrite int_of_floor.
  - f_equal. apply Qfloor_comp. apply Qmult_comm.
  - unfold len, Qle. simpl. lia.
Qed.

Lemma p95_index_lt (latencies : list Q) :
  latencies <> [] -> (p95_index latencies < length latencies)%nat.
Proof.
  intros Hne. unfold p95_index, int_of, len. cbn [Qmult inject_Z Qnum Qden].
  assert (0 < length latencies)%nat by (destruct latencies; [done | simpl; lia]).
  rewrite Z.quot_div_nonneg by lia.
  assert (Z.of_nat (length latencies) * 95 / Z.pos (1 * 100) < Z.of_nat (length latencies)).
  { apply Z.div_lt_upper_bound; lia. }
  assert (0 <= Z.of_nat (length latencies) * 95 / Z.pos (1 * 100)).
  { apply Z.div_pos; lia. }
  lia.
Qed.

Lemma insort_perm (x : Q) (l : list Q) : Permutation (x :: l) (insort x l).
Proof.
  induction l as [|y l IH]; simpl.
  - reflexivity.
  - destruct (Qle_bool x y).
    + reflexivity.
    + rewrite <- IH. apply perm_swap.
Qed.

Lemma sorted_perm (l : list Q) : Permutation l (sorted l).
Proof.
  induction l as [|x l IH]; simpl.
  - reflexivity.
  - rewrite <- insort_perm. by constructor.
Qed.

Lemma insort_hd (x a : Q) (l : list Q) :
  (a <= x)%Q -> HdRel Qle a l -> HdRel Qle a (insort x l).
Proof.
  intros Hax Hl. destruct l as [|y l]; simpl.
  - by constructor.
  - destruct (Qle_bool x y); constructor; [done | by inv Hl].
Qed.

Lemma insort_sorted (x : Q) (l : list Q) : Sorted Qle l -> Sorted Qle (insort x l).
Proof.
  induction 1 as [|y l Hl IH Hy]; simpl.
  - by repeat constructor.
  - destruct (Qle_bool x y) eqn:E.
    + apply Qle_bool_iff in E. by repeat constructor.
    + constructor; [done |]. apply insort_hd; [| done].
      apply Qlt_le_weak, Qnot_le_lt. intros Hle.
      apply Qle_bool_iff in Hle. congruence.
Qed.

Lemma sorted_sorted (l : list Q) : Sorted Qle (sorted l).
Proof.
  induction l as [|x l IH]; simpl.
  - constructor.
  - by apply insort_sorted.
Qed.

Lemma Sorted_Qred (l : list Q) : Sorted Qle l -> Sorted Qle (map Qred l).
Proof.
  induction 1 as [|x l Hl IH Hx]; simpl; constructor; [done |].
  destruct Hx as [|y l Hxy]; simpl; constructor.
  by rewrite !Qred_correct.
Qed.

(** Two ascending arrangements of the same values agree position by
    position, as numbers. *)
Lemma ascending_unique (l1 l2 : list Q) :
  Permutation l1 l2 -> Sorted Qle l1 -> Sorted Qle l2 ->
  map Qred l1 = map Qred l2.
Proof.
  intros Hp H1 H2.
  assert (Transitive Qle) as HT by exact Qle_trans.
  apply (Sorted_unique_strong Qle).
  - intros x1 x2 Hx1 Hx2 H12 H21.
    apply list_elem_of_fmap in Hx1 as [a [-> _]].
    apply list_elem_of_fmap in Hx2 as [b [-> _]].
    apply Qred_complete. rewrite !Qred_correct in H12, H21.
    by apply Qle_antisym.
  - by apply Sorted_Qred.
  - by apply Sorted_Qred.
  - by apply Permutation_map.
Qed.

Lemma nth_Qred_eq (l1 l2 : list Q) (k : nat) :
  map Qred l1 = map Qred l2 -> (nth k l1 0 == nth k l2 0)%Q.
Proof.
  intros E.
  rewrite <- (Qred_correct (nth k l1 0%Q)), <- (Qred_correct (nth k l2 0%Q)).
  rewrite <- !(map_nth Qred). simpl. by rewrite E.
Qed.

(** ** The analyzer *)

Lemma analyze_lookup_stable (m : gmap string (list Metric)) :
  analyze m !! stable =
  match m !!! stable with [] => None | ms => Some (summarize ms) end.
Proof.
  unfold analyze, analyze_env. cbn [foldl].
  destruct (m !!! canary) as [|y ys], (m !!! stable) as [|x xs];
    by simplify_map_eq.
Qed.

Lemma analyze_lookup_canary (m : gmap string (list Metric)) :
  analyze m !! canary =
  match m !!! canary with [] => None | ms => Some (summarize ms) end.
Proof.
  unfold analyze, analyze_env. cbn [foldl].
  destruct (m !!! canary) as [|y ys], (m !!! stable) as [|x xs];
    by simplify_map_eq.
Qed.

Lemma analyze_lookup (m : gmap string (list Metric)) (env : string) :
  env = stable \/ env = canary ->
  analyze m !! env =
  match m !!! env with [] => None | ms => Some (summarize ms) end.
Proof.
  intros [-> | ->]; [apply analyze_lookup_stable | apply analyze_lookup_canary].
Qed.

Lemma analyze_lookup_other (m : gmap string (list Metric)) (env : string) :
  env <> stable -> env <> canary -> analyze m !! env = None.
Proof.
  intros Hs Hc. unfold analyze, analyze_env. cbn [foldl].
  destruct (m !!! canary) as [|y ys], (m !!! stable) as [|x xs];
    by simplify_map_eq.
Qed.

Lemma summarize_total (ms : list Metric) : total_requests (summarize ms) = len ms.
Proof. reflexivity. Qed.

Lemma summarize_success_count (ms : list Metric) :
  success_count (summarize ms) = len (filter (fun m => success m = true) ms).
Proof. unfold summarize. cbn [success_count]. apply sum_Z_ones. Qed.

Lemma summarize_error_rate (ms : list Metric) :
  ms <> [] ->
  error_rate (summarize ms) =
  (inject_Z (len ms - success_count (summarize ms)) / inject_Z (len ms) * 100)%Q.
Proof.
  intros Hne. unfold summarize. cbn [error_rate success_count].
  destruct (0 <? len ms) eqn:E; [done |].
  apply Z.ltb_ge in E. destruct ms; [done |]. unfold len in E. simpl in E. lia.
Qed.

Lemma summarize_p95_latency (ms : list Metric) :
  ms <> [] ->
  p95_latency (summarize ms) =
  nth (p95_index (map latency ms)) (sorted (map latency ms)) 0%Q.
Proof.
  intros Hne. unfold summarize. cbn [p95_latency].
  by destruct ms as [|m ms].
Qed.

(** ** The evaluator *)

Lemma emit_warnings_spec (b : bool) (ws : list Warning) (w : World) (st : State) :
  fold_right (fun x k => emit (Warned x) ;; k) (ret b) ws w st =
  (b, {| connected := connected st; canary_percentage := canary_percentage st;
         metrics := metrics st; served := served st;
         trace := trace st ++ map Warned ws |}).
Proof.
  revert st. induction ws as [|x ws IH]; intros st; cbn [fold_right map].
  - unfold ret. rewrite app_nil_r. by destruct st.
  - unfold bind at 1. unfold emit at 1. rewrite IH. cbn.
    by rewrite <- app_assoc.
Qed.

Lemma should_rollback_spec (a : gmap string Summary) (w : World) (st : State) :
  should_rollback a w st =
  (fst (rollback_decision a),
   {| connected := connected st; canary_percentage := canary_percentage st;
      metrics := metrics st; served := served st;
      trace := trace st ++ map Warned (snd (rollback_decision a)) |}).
Proof.
  unfold should_rollback. destruct (rollback_decision a) as [b ws].
  apply emit_warnings_spec.
Qed.

Lemma rollback_decision_present (a : gmap string Summary) (s c : Summary) :
  a !! stable = Some s -> a !! canary = Some c ->
  fst (rollback_decision a) =
  gtb (error_rate c) (error_rate s * 2) || gtb (p95_latency c) (p95_latency s * 1.5).
Proof.
  intros Hs Hc. unfold rollback_decision. rewrite Hs, Hc.
  destruct (gtb (error_rate c) (error_rate s * 2)); [done |].
  by destruct (gtb (p95_latency c) (p95_latency s * 1.5)).
Qed.

Lemma rollback_decision_absent (a : gmap string Summary) :
  a !! stable = None \/ a !! canary = None -> rollback_decision a = (false, []).
Proof.
  unfold rollback_decision. intros [H | H]; rewrite H; [| done].
  by destruct (a !! canary).
Qed.

(** ** The traffic loop *)

Lemma simulate_one_spec (w : World) (st : State) :
  simulate_one w st =
  (tt, {| connected := connected st; canary_percentage := canary_percentage st;
          metrics := window (canary_percentage st) (metrics st) [request w (served st)];
          served := S (served st);
          trace := trace st ++ [queried (canary_percentage st) (request w (served st))] |}).
Proof.
  unfold simulate_one, window, label, queried, outcome. cbn.
  by destruct (draw (request w (served st)) <=? canary_percentage st).
Qed.

Lemma simulate_traffic_spec (n : nat) (w : World) (st : State) :
  simulate_traffic n w st =
  (tt, {| connected := connected st; canary_percentage := canary_percentage st;
          metrics := window (canary_percentage st) (metrics st) (requests w (served st) n);
          served := (served st + n)%nat;
          trace := trace st ++ map (queried (canary_percentage st)) (requests w (served st) n) |}).
Proof.
  revert st. induction n as [|n IH]; intros st.
  - cbn. rewrite app_nil_r, Nat.add_0_r. by destruct st.
  - cbn [simulate_traffic]. unfold bind. rewrite simulate_one_spec, IH.
    cbn [connected canary_percentage metrics served trace].
    unfold requests. cbn [seq map]. rewrite <- app_assoc.
    replace (S (served st) + n)%nat with (served st + S n)%nat by lia.
    reflexivity.
Qed.

Lemma window_lookup (p : Z) (m : gmap string (list Metric)) (rs : list Request) (env : string) :
  window p m rs !! env =
  (fun l => l ++ map outcome (filter (fun r => label p r = env) rs)) <$> (m !! env).
Proof.
  unfold window. revert m. induction rs as [|r rs IH]; intros m; cbn [foldl].
  - cbn. destruct (m !! env) as [l|]; cbn; [| done]. by rewrite app_nil_r.
  - rewrite IH, lookup_alter. rewrite filter_cons.
    destruct (decide (label p r = env)) as [E | E].
    + destruct (m !! label p r) as [l|] eqn:El; rewrite <- E, El; cbn; [| done].
      by rewrite <- app_assoc.
    + done.
Qed.

Lemma window_empty_metrics (p : Z) (rs : list Request) (env : string) :
  env = stable \/ env = canary ->
  window p empty_metrics rs !!! env = map outcome (filter (fun r => label p r = env) rs).
Proof.
  intros Henv. rewrite lookup_total_alt, window_lookup.
  destruct Henv as [-> | ->]; by unfold empty_metrics; simplify_map_eq.
Qed.

(** ** The run, stage by stage *)

Ltac run_methods :=
  cbn [bind ret emit set_connected set_canary_percentage set_metrics get init
       setup apply_canary_change route_traffic analyze_metrics print_metrics
       rollback_canary sleep promote_stable negb
       connected canary_percentage metrics served trace app fst snd].

Ltac run_traffic :=
  unfold bind at 1; rewrite simulate_traffic_spec; run_methods.

Ltac run_decision :=
  unfold bind at 1; rewrite should_rollback_spec; run_methods.

Lemma run_trace (w : World) :
  trace (run w) =
  if reachable w then
    [Connected true; SetupDone; CanaryChangeApplied]
    ++ stage_trace w 0 10 "10% Traffic"
    ++ (if rolls_back w 0 10 then [CanaryRolledBack] else
        Slept :: stage_trace w 1 50 "50% Traffic"
        ++ (if rolls_back w 1 50 then [CanaryRolledBack] else
            Slept :: Routed 100 :: map (queried 100) (stage_requests w 2)
            ++ [MetricsPrinted (stage_analysis w 2 100) "100% Traffic"; StablePromoted]))
  else [Connected false].
Proof.
  unfold run, run_canary_deployment, connect_all.
  unfold bind at 1. destruct (reachable w); [| reflexivity].
  run_methods. run_traffic. run_decision.
  change (requests w 0 200) with (stage_requests w 0).
  change (requests w (0 + 200) 200) with (stage_requests w 1).
  change (requests w (0 + 200 + 200) 200) with (stage_requests w 2).
  fold (stage_analysis w 0 10). fold (rolls_back w 0 10).
  unfold stage_trace at 1.
  destruct (rolls_back w 0 10).
  { run_methods. by rewrite <- !app_assoc. }
  run_methods. run_traffic. run_decision.
  change (requests w (0 + 200) 200) with (stage_requests w 1).
  fold (stage_analysis w 1 50). fold (rolls_back w 1 50).
  unfold stage_trace.
  destruct (rolls_back w 1 50).
  { run_methods. rewrite <- !app_assoc. cbn [app].
    repeat (rewrite <- ?app_assoc; cbn [app]; f_equal). }
  run_methods. run_traffic.
  change (requests w (0 + 200 + 200) 200) with (stage_requests w 2).
  fold (stage_analysis w 2 100).
  repeat (rewrite <- ?app_assoc; cbn [app]; f_equal).
Qed.

(** * Rounding

    The exact arithmetic of the model and the double precision
    arithmetic of the script give the same subscript and the same
    comparisons where the statements below depend on them; where a
    statement depends on a rounded product, quotient or sum it is made
    on the doubles.  The windows of the script hold at most 200
    outcomes. *)

Lemma p95_index_length (latencies : list Q) :
  p95_index latencies = Z.to_nat (Z.of_nat (length latencies) * 95 / 100).
Proof.
  unfold p95_index, int_of, len. cbn [Qmult inject_Z Qnum Qden].
  by rewrite Z.quot_div_nonneg by lia.
Qed.

(** [int(len(latencies) * 0.95)] evaluated on doubles is the exact
    subscript for every list of up to 4096 latencies. *)
Lemma binary64_p95_index_exact (latencies : list Q) :
  (length latencies <= 4096)%nat ->
  Binary64.p95_index (length latencies) = p95_index latencies.
Proof.
  intros Hn. rewrite p95_index_length.
  assert (forallb (fun n => Binary64.p95_index n =? Z.to_nat (Z.of_nat n * 95 / 100))%nat
            (seq 0 4097) = true) as Hall by (vm_compute; reflexivity).
  rewrite forallb_forall in Hall.
  apply Nat.eqb_eq, Hall, in_seq. lia.
Qed.

(** A window of up to 4096 outcomes that all succeeded has the error
    rate [0.0] on doubles as well. *)
Lemma binary64_error_rate_zero (total : nat) :
  (1 <= total <= 4096)%nat ->
  Binary64.error_rate_of (Z.of_nat total) (Z.of_nat total) = 0%float.
Proof.
  intros Hn. unfold Binary64.error_rate_of. rewrite Z.sub_diag.
  assert (forallb (fun n => PrimFloat.eqb
                     (Binary64.float_of_int 0 / Binary64.float_of_int (Z.of_nat n) * 100) 0
                   && negb (PrimFloat.get_sign
                     (Binary64.float_of_int 0 / Binary64.float_of_int (Z.of_nat n) * 100)))%float
            (seq 1 4096) = true) as Hall by (vm_compute; reflexivity).
  rewrite forallb_forall in Hall.
  specialize (Hall total). rewrite in_seq in Hall.
  apply andb_true_iff in Hall as [Hzero Hsign]; [| lia].
  revert Hzero Hsign.
  generalize (Binary64.float_of_int 0 / Binary64.float_of_int (Z.of_nat total) * 100)%float.
  intros x Hzero Hsign.
  rewrite FloatAxioms.eqb_spec in Hzero. rewrite <- (SF2Prim_Prim2SF x).
  unfold PrimFloat.get_sign in Hsign.
  destruct (Prim2SF x) as [[]| [] | | [] m e] eqn:E; try done.
  exfalso. rewrite <- (SF2Prim_Prim2SF x), E in Hsign. by vm_compute in Hsign.
Qed.

(** On doubles too the comparison is strict: at equality it is false. *)
Lemma binary64_exceeds_strict (c s k : float) :
  PrimFloat.eqb (s * k)%float c = true -> Binary64.exceeds c s k = false.
Proof.
  unfold Binary64.exceeds. rewrite FloatAxioms.eqb_spec, FloatAxioms.ltb_spec.
  unfold SFeqb, SFltb. by destruct (SFcompare _ _) as [[]|].
Qed.

(** On doubles too a stable rate of zero makes the test [c > 0]. *)
Lemma binary64_exceeds_zero (c s : float) :
  PrimFloat.eqb s 0 = true -> PrimFloat.ltb 0 c = true -> Binary64.exceeds c s 2 = true.
Proof.
  unfold Binary64.exceeds. intros Hs Hc.
  assert (s = 0%float \/ s = (-0)%float) as [-> | ->].
  { rewrite FloatAxioms.eqb_spec in Hs. rewrite <- (SF2Prim_Prim2SF s).
    destruct (Prim2SF s) as [[]| [] | | [] m e]; try done; auto. }
  - exact Hc.
  - rewrite FloatAxioms.ltb_spec in *. change (Prim2SF (-0 * 2)) with (S754_zero true).
    by destruct (Prim2SF c).
Qed.


(** * The analyzer and the evaluator: main results *)


(** C5.  For a non-empty list of outcomes, the p95 latency of the
    summary is the value at 0-indexed rank [floor(0.95 * n)] of the
    ascending arrangement of the [n] latencies, whichever ascending
    arrangement [s] of them is taken; the rank is inside the list. *)
Theorem p95_is_nearest_rank (ms : list Metric) (s : list Q) :
  ms <> [] ->
  Permutation (map latency ms) s ->
  Sorted Qle s ->
  let rank := Z.to_nat (Qfloor (0.95 * inject_Z (len ms))) in
  (rank < length s)%nat /\
  (p95_latency (summarize ms) == nth rank s 0)%Q.
Proof.
  intros Hne Hp Hs rank.
  assert (map latency ms <> []) as Hne' by (by destruct ms).
  assert (rank = p95_index (map latency ms)) as ->.
  { rewrite p95_index_floor. unfold rank, len. by rewrite length_map. }
  split.
  - rewrite <- (Permutation_length Hp). by apply p95_index_lt.
  - rewrite summarize_p95_latency by done.
    apply nth_Qred_eq, ascending_unique; [| apply sorted_sorted | done].
    by rewrite <- sorted_perm.
Qed.

(** C2.  With both summaries present, [should_rollback] answers true
    exactly when the canary error rate exceeds the stable one times 2
    or the canary p95 latency exceeds the stable one times 1.5, the
    products and the comparisons being those of the script on doubles;
    when the canary error rate equals the stable one times 2 and the
    latency test does not fire, the answer is false. *)
Theorem should_rollback_iff_threshold_exceeded
    (analysis : gmap string Binary64.Summary) (s c : Binary64.Summary) :
  analysis !! stable = Some s ->
  analysis !! canary = Some c ->
  ((Binary64.should_rollback analysis).1 = true <->
   (Binary64.error_rate s * 2 <? Binary64.error_rate c)%float = true \/
   (Binary64.p95_latency s * 1.5 <? Binary64.p95_latency c)%float = true) /\
  ((Binary64.error_rate s * 2 =? Binary64.error_rate c)%float = true ->
   (Binary64.p95_latency s * 1.5 <? Binary64.p95_latency c)%float = false ->
   (Binary64.should_rollback analysis).1 = false).
Proof.
  intros Hs Hc. unfold Binary64.should_rollback. rewrite Hs, Hc.
  split.
  - unfold Binary64.exceeds.
    destruct (_ * 2 <? _)%float; [cbn; tauto |].
    destruct (_ * 1.5 <? _)%float; cbn; split; auto; intros [|]; done.
  - intros Heq Hlat. rewrite (binary64_exceeds_strict _ _ _ Heq).
    unfold Binary64.exceeds. by rewrite Hlat.
Qed.

(** C6.  When the stable summary or the canary summary is missing,
    [should_rollback] answers false; no warning is logged and the state
    is left as it was, whatever the summary that is present contains. *)
Theorem should_rollback_false_when_summary_absent
    (analysis : gmap string Summary) (w : World) (st : State) :
  analysis !! stable = None \/ analysis !! canary = None ->
  should_rollback analysis w st = (false, st).
Proof.
  intros H. rewrite should_rollback_spec, (rollback_decision_absent analysis H).
  cbn. rewrite app_nil_r. by destruct st.
Qed.

(** C7.  With both summaries present and a stable error rate of zero,
    any positive canary error rate makes [should_rollback] answer
    true. *)
Theorem should_rollback_strict_at_zero_stable_error_rate
    (analysis : gmap string Summary) (s c : Summary) (w : World) (st : State) :
  analysis !! stable = Some s ->
  analysis !! canary = Some c ->
  (error_rate s == 0)%Q ->
  (error_rate c > 0)%Q ->
  (should_rollback analysis w st).1 = true.
Proof.
  intros Hs Hc Hzero Hpos. rewrite should_rollback_spec. cbn [fst].
  rewrite (rollback_decision_present analysis s c Hs Hc).
  apply orb_true_iff. left. apply gtb_lt.
  rewrite Hzero. by rewrite Qmult_0_l.
Qed.

(** C9.  The answer of [should_rollback] depends on the analysis alone:
    in any two worlds and states it is the same for the same analysis,
    also when it is asked twice in a row.  The call leaves every field
    of the controller as it was, so that the analysis computed from the
    state afterwards is the analysis computed before; all it adds is
    the warnings it logs. *)
Theorem should_rollback_deterministic_and_pure
    (analysis : gmap string Summary) (w1 w2 : World) (st1 st2 : State) :
  (should_rollback analysis w1 st1).1 = (should_rollback analysis w2 st2).1 /\
  (should_rollback analysis w1 (should_rollback analysis w1 st1).2).1
    = (should_rollback analysis w1 st1).1 /\
  let st' := (should_rollback analysis w1 st1).2 in
  connected st' = connected st1 /\
  canary_percentage st' = canary_percentage st1 /\
  metrics st' = metrics st1 /\
  served st' = served st1 /\
  (analyze_metrics w1 st').1 = (analyze_metrics w1 st1).1 /\
  exists warnings, trace st' = trace st1 ++ map Warned warnings.
Proof.
  rewrite !should_rollback_spec. cbn.
  repeat split. by eexists.
Qed.

(** * The controller *)

(** ** Reading a trace *)

Lemma rollbacks_app (t1 t2 : list Event) :
  rollbacks (t1 ++ t2) = (rollbacks t1 + rollbacks t2)%nat.
Proof. unfold rollbacks. by rewrite List.filter_app, length_app. Qed.

Lemma promoted_app (t1 t2 : list Event) :
  promoted (t1 ++ t2) = promoted t1 || promoted t2.
Proof. apply existsb_app. Qed.

Lemma printed_app (phase : string) (t1 t2 : list Event) :
  printed phase (t1 ++ t2) =
  match printed phase t1 with Some a => Some a | None => printed phase t2 end.
Proof.
  induction t1 as [|e t1 IH]; [done |].
  destruct e; cbn [app printed]; try done.
  by destruct (String.eqb phase0 phase).
Qed.

Lemma rollbacks_queried (p : Z) (rs : list Request) : rollbacks (map (queried p) rs) = 0%nat.
Proof. unfold rollbacks. by induction rs. Qed.

Lemma promoted_queried (p : Z) (rs : list Request) : promoted (map (queried p) rs) = false.
Proof. unfold promoted. by induction rs. Qed.

Lemma printed_queried (phase : string) (p : Z) (rs : list Request) :
  printed phase (map (queried p) rs) = None.
Proof. by induction rs. Qed.

Lemma rollbacks_warned (ws : list Warning) : rollbacks (map Warned ws) = 0%nat.
Proof. unfold rollbacks. by induction ws. Qed.

Lemma promoted_warned (ws : list Warning) : promoted (map Warned ws) = false.
Proof. unfold promoted. by induction ws. Qed.

Lemma printed_warned (phase : string) (ws : list Warning) :
  printed phase (map Warned ws) = None.
Proof. by induction ws. Qed.

Lemma rollbacks_stage_trace (w : World) (k : nat) (p : Z) (phase : string) :
  rollbacks (stage_trace w k p phase) = 0%nat.
Proof.
  unfold stage_trace.
  change (Routed p :: ?t) with ([Routed p] ++ t).
  rewrite !rollbacks_app, rollbacks_queried.
  change (MetricsPrinted ?a ?ph :: ?t) with ([MetricsPrinted a ph] ++ t).
  by rewrite rollbacks_app, rollbacks_warned.
Qed.

Lemma promoted_stage_trace (w : World) (k : nat) (p : Z) (phase : string) :
  promoted (stage_trace w k p phase) = false.
Proof.
  unfold stage_trace.
  change (Routed p :: ?t) with ([Routed p] ++ t).
  rewrite !promoted_app, promoted_queried.
  change (MetricsPrinted ?a ?ph :: ?t) with ([MetricsPrinted a ph] ++ t).
  by rewrite promoted_app, promoted_warned.
Qed.

Lemma printed_stage_trace (w : World) (k : nat) (p : Z) (phase ph : string) :
  printed ph (stage_trace w k p phase) =
  if String.eqb phase ph then Some (stage_analysis w k p) else None.
Proof.
  unfold stage_trace. cbn [printed]. rewrite printed_app, printed_queried.
  cbn [printed]. destruct (String.eqb phase ph); [done |]. apply printed_warned.
Qed.

Create Rewrite HintDb trace_obs.

#[local] Hint Rewrite rollbacks_app promoted_app printed_app
  rollbacks_stage_trace promoted_stage_trace printed_stage_trace
  rollbacks_queried promoted_queried printed_queried : trace_obs.

(** ** A split of 100 *)

Lemma requests_in_range (w : World) (start n : nat) :
  draws_in_range w -> Forall (fun r => 1 <= draw r <= 100) (requests w start n).
Proof.
  intros Hw. unfold requests. apply Forall_forall. intros r Hr.
  apply list_elem_of_fmap in Hr as [i [-> _]]. apply Hw.
Qed.

Lemma label_full_split (r : Request) : draw r <= 100 -> label 100 r = canary.
Proof. intros H. unfold label. by rewrite (proj2 (Z.leb_le _ _) H). Qed.

Lemma no_stable_at_full_split (rs : list Request) :
  Forall (fun r => 1 <= draw r <= 100) rs ->
  filter (fun r => label 100 r = stable) rs = [].
Proof.
  induction 1 as [|r rs Hr _ IH]; [done |].
  rewrite filter_cons, IH. rewrite label_full_split by lia.
  by destruct (decide (canary = stable)).
Qed.

Lemma all_canary_at_full_split (rs : list Request) :
  Forall (fun r => 1 <= draw r <= 100) rs ->
  filter (fun r => label 100 r = canary) rs = rs.
Proof.
  induction 1 as [|r rs Hr _ IH]; [done |].
  rewrite filter_cons, IH. rewrite label_full_split by lia.
  by destruct (decide (canary = canary)).
Qed.

Lemma queried_at_full_split (rs : list Request) :
  Forall (fun r => 1 <= draw r <= 100) rs ->
  map (queried 100) rs = map (fun r => Queried true (answered r) (millis r)) rs.
Proof.
  induction 1 as [|r rs Hr _ IH]; [done |].
  cbn [map]. rewrite IH. unfold queried.
  by rewrite (proj2 (Z.leb_le (draw r) 100)) by lia.
Qed.

Lemma stage_analysis_full_split (w : World) (k : nat) :
  draws_in_range w -> stage_analysis w k 100 !! stable = None.
Proof.
  intros Hw. unfold stage_analysis. rewrite analyze_lookup_stable.
  rewrite window_empty_metrics by (by left).
  rewrite no_stable_at_full_split; [done |]. by apply requests_in_range.
Qed.

(** C10.  With the split at 100 and a freshly reset window, the routing
    test [random.randint(1, 100) <= 100] holds for every request the
    traffic loop issues, whatever the draws are, and every query is sent
    to the canary; afterwards the stable list is empty and the canary
    list holds all the outcomes, the analysis has no stable summary, and
    [should_rollback] on that analysis answers false. *)
Theorem full_split_never_rolls_back (w : World) (st : State) (n : nat) :
  draws_in_range w ->
  canary_percentage st = 100 ->
  metrics st = empty_metrics ->
  let st' := (simulate_traffic n w st).2 in
  let analysis := (analyze_metrics w st').1 in
  Forall (fun r => (draw r <=? canary_percentage st) = true) (requests w (served st) n) /\
  trace st' =
    trace st ++ map (fun r => Queried true (answered r) (millis r)) (requests w (served st) n) /\
  metrics st' !!! stable = [] /\
  len (metrics st' !!! canary) = Z.of_nat n /\
  analysis !! stable = None /\
  (should_rollback analysis w st').1 = false.
Proof.
  intros Hw Hp Hm st' analysis. subst st' analysis.
  rewrite simulate_traffic_spec. cbn [snd fst metrics trace analyze_metrics bind get ret].
  rewrite Hp, Hm.
  pose proof (requests_in_range w (served st) n Hw) as Hrs.
  assert (window 100 empty_metrics (requests w (served st) n) !!! stable = []) as Hstable.
  { rewrite window_empty_metrics by (by left). by rewrite no_stable_at_full_split. }
  split; [| split; [| split; [done | split; [| split]]]].
  - eapply Forall_impl; [exact Hrs |]. cbn. intros r Hr. apply Z.leb_le. lia.
  - by rewrite queried_at_full_split.
  - rewrite window_empty_metrics by (by right).
    unfold len. rewrite length_map, all_canary_at_full_split by done.
    unfold requests. by rewrite length_map, length_seq.
  - rewrite analyze_lookup_stable. by rewrite Hstable.
  - rewrite should_rollback_spec, rollback_decision_absent; [done |].
    left. rewrite analyze_lookup_stable. by rewrite Hstable.
Qed.

(** ** Windows of successful requests *)

Lemma total_of_analyze (m : gmap string (list Metric)) (env : string) :
  env = stable \/ env = canary -> total_of (analyze m) env = len (m !!! env).
Proof.
  intros Henv. unfold total_of. rewrite (analyze_lookup m env Henv).
  by destruct (m !!! env).
Qed.

Lemma label_split_lengths (p : Z) (rs : list Request) :
  (length (filter (fun r => label p r = stable) rs)
   + length (filter (fun r => label p r = canary) rs))%nat = length rs.
Proof.
  induction rs as [|r rs IH]; [done |].
  rewrite !filter_cons.
  assert (label p r = stable \/ label p r = canary) as [E | E]
    by (unfold label; destruct (draw r <=? p); auto).
  - rewrite !E. rewrite decide_True, decide_False by done. cbn [length]. lia.
  - rewrite !E. rewrite decide_False, decide_True by done. cbn [length]. lia.
Qed.

Lemma stage_totals (w : World) (k : nat) (p : Z) :
  total_of (stage_analysis w k p) stable + total_of (stage_analysis w k p) canary = 200.
Proof.
  unfold stage_analysis.
  rewrite !total_of_analyze, !window_empty_metrics by auto.
  unfold len. rewrite !length_map, <- Nat2Z.inj_add, label_split_lengths.
  unfold stage_requests, requests. by rewrite length_map, length_seq.
Qed.

Lemma summarize_all_successful (ms : list Metric) :
  ms <> [] ->
  Forall (fun m => success m = true) ms ->
  (error_rate (summarize ms) == 0)%Q /\
  success_count (summarize ms) = total_requests (summarize ms).
Proof.
  intros Hne Hall.
  assert (success_count (summarize ms) = len ms) as Hcount.
  { rewrite summarize_success_count. f_equal.
    clear Hne. induction Hall as [|m ms Hm _ IH]; [done |].
    rewrite filter_cons, IH. by destruct (decide (success m = true)). }
  split; [| by rewrite summarize_total].
  rewrite summarize_error_rate, Hcount, Z.sub_diag by done.
  unfold Qdiv. by rewrite !Qmult_0_l.
Qed.

Lemma outcomes_all_successful (P : Request -> Prop) `{!forall r, Decision (P r)}
    (rs : list Request) :
  forallb answered rs = true ->
  Forall (fun m => success m = true) (map outcome (filter P rs)).
Proof.
  intros Hall. apply Forall_forall. intros m Hm.
  apply list_elem_of_fmap in Hm as [r [-> Hr]].
  apply list_elem_of_filter in Hr as [_ Hr].
  apply list_elem_of_In in Hr.
  rewrite forallb_forall in Hall. by apply Hall.
Qed.

Lemma stage_analysis_all_successful (w : World) (k : nat) (p : Z) (env : string) (s : Summary) :
  forallb answered (stage_requests w k) = true ->
  stage_analysis w k p !! env = Some s ->
  (error_rate s == 0)%Q /\ success_count s = total_requests s.
Proof.
  intros Hall Hs. unfold stage_analysis in Hs.
  destruct (decide (env = stable)) as [-> | Hns];
    [| destruct (decide (env = canary)) as [-> | Hnc]].
  - rewrite analyze_lookup_stable, window_empty_metrics in Hs by auto.
    destruct (map outcome _) as [|m ms] eqn:E; [done |]. injection Hs as <-.
    apply summarize_all_successful; [done |]. rewrite <- E.
    by apply outcomes_all_successful.
  - rewrite analyze_lookup_canary, window_empty_metrics in Hs by auto.
    destruct (map outcome _) as [|m ms] eqn:E; [done |]. injection Hs as <-.
    apply summarize_all_successful; [done |]. rewrite <- E.
    by apply outcomes_all_successful.
  - by rewrite analyze_lookup_other in Hs.
Qed.

(** ** The three ways a run ends *)

Lemma rollbacks_cons (e : Event) (t : list Event) :
  rollbacks (e :: t) = ((if is_rollback e then 1 else 0) + rollbacks t)%nat.
Proof. unfold rollbacks. cbn [List.filter]. by destruct (is_rollback e). Qed.

Lemma promoted_cons (e : Event) (t : list Event) :
  promoted (e :: t) = is_promotion e || promoted t.
Proof. reflexivity. Qed.

#[local] Hint Rewrite rollbacks_cons promoted_cons rollbacks_warned promoted_warned
  printed_warned : trace_obs.

Ltac observe_run w :=
  rewrite (run_trace w);
  destruct (reachable w); [| reflexivity];
  destruct (rolls_back w 0 10); [| destruct (rolls_back w 1 50)];
  repeat (autorewrite with trace_obs;
          cbn [printed is_promotion is_rollback orb andb negb Nat.add app]);
  try reflexivity.

Lemma run_promoted (w : World) :
  promoted (trace (run w)) =
  reachable w && negb (rolls_back w 0 10) && negb (rolls_back w 1 50).
Proof. observe_run w. Qed.

Lemma run_rollbacks (w : World) :
  rollbacks (trace (run w)) =
  if reachable w && (rolls_back w 0 10 || rolls_back w 1 50) then 1%nat else 0%nat.
Proof. observe_run w. Qed.

Lemma run_printed (w : World) (phase : string) :
  printed phase (trace (run w)) =
  if reachable w then
    if String.eqb "10% Traffic" phase then Some (stage_analysis w 0 10)
    else if rolls_back w 0 10 then None
    else if String.eqb "50% Traffic" phase then Some (stage_analysis w 1 50)
    else if rolls_back w 1 50 then None
    else if String.eqb "100% Traffic" phase then Some (stage_analysis w 2 100)
    else None
  else None.
Proof.
  observe_run w.
  - by destruct (String.eqb "10% Traffic" phase).
  - destruct (String.eqb "10% Traffic" phase); [done |].
    by destruct (String.eqb "50% Traffic" phase).
  - destruct (String.eqb "10% Traffic" phase); [done |].
    destruct (String.eqb "50% Traffic" phase); [done |].
    by destruct (String.eqb "100% Traffic" phase).
Qed.

Lemma should_rollback_answer (a : gmap string Summary) (w : World) (st : State) :
  (should_rollback a w st).1 = fst (rollback_decision a).
Proof. by rewrite should_rollback_spec. Qed.


(** C3.  When [should_rollback] answers true on the analysis reported
    for a stage, the run invokes the rollback action exactly once and
    that is the last thing it does: after the report come only the
    warnings of the evaluator and the rollback, so no later stage is
    routed, queried or analysed, and the change is not promoted. *)
Theorem rollback_is_terminal (w : World) (phase : string) (a : gmap string Summary) :
  draws_in_range w ->
  printed phase (trace (run w)) = Some a ->
  (should_rollback a w (run w)).1 = true ->
  rollbacks (trace (run w)) = 1%nat /\
  promoted (trace (run w)) = false /\
  exists before warnings,
    trace (run w) =
      before ++ MetricsPrinted a phase :: map Warned warnings ++ [CanaryRolledBack] /\
    rollbacks before = 0%nat.
Proof.
  intros Hw Ha Hrb. rewrite should_rollback_answer in Hrb.
  assert (fst (rollback_decision (stage_analysis w 2 100)) = false) as Hpass.
  { rewrite rollback_decision_absent; auto using stage_analysis_full_split. }
  rewrite run_rollbacks, run_promoted. rewrite run_printed in Ha.
  rewrite run_trace.
  destruct (reachable w); [| done]. cbn [andb negb orb].
  destruct (String.eqb_spec "10% Traffic" phase) as [<- | _].
  { injection Ha as <-. fold (rolls_back w 0 10) in Hrb. rewrite Hrb.
    split; [done |]. split; [done |].
    exists ([Connected true; SetupDone; CanaryChangeApplied; Routed 10]
            ++ map (queried 10) (stage_requests w 0)),
           (snd (rollback_decision (stage_analysis w 0 10))).
    split.
    - unfold stage_trace. repeat (rewrite <- ?app_assoc; cbn [app]; f_equal).
    - change (Connected true :: ?t) with ([Connected true] ++ t).
      by autorewrite with trace_obs. }
  destruct (rolls_back w 0 10) eqn:R0; [done |].
  destruct (String.eqb_spec "50% Traffic" phase) as [<- | _].
  { injection Ha as <-. fold (rolls_back w 1 50) in Hrb. rewrite Hrb.
    split; [done |]. split; [done |].
    exists ([Connected true; SetupDone; CanaryChangeApplied]
            ++ stage_trace w 0 10 "10% Traffic"
            ++ Slept :: Routed 50 :: map (queried 50) (stage_requests w 1)),
           (snd (rollback_decision (stage_analysis w 1 50))).
    split.
    - unfold stage_trace. repeat (rewrite <- ?app_assoc; cbn [app]; f_equal).
    - repeat (autorewrite with trace_obs; cbn [is_rollback Nat.add app]).
      done. }
  destruct (rolls_back w 1 50) eqn:R1; [done |].
  destruct (String.eqb "100% Traffic" phase); [| done].
  injection Ha as <-. congruence.
Qed.

(** C8.  The analysis reported for the stage after stage [k] (the
    second or the third stage) is computed from a window that was
    emptied and then filled with the requests of that stage alone,
    whatever stage [k] recorded, failures only for one: it counts the
    200 requests of its own stage, and when all of them succeeded every
    summary in it has an error rate of exactly 0 and as many successes
    as requests. *)
Theorem stage_window_is_reset (w : World) (k : nat) (a : gmap string Summary) :
  (k = 0 \/ k = 1)%nat ->
  printed (phase_of (S k)) (trace (run w)) = Some a ->
  a = analyze (window (split_of (S k)) empty_metrics (stage_requests w (S k))) /\
  total_of a stable + total_of a canary = 200 /\
  (forallb answered (stage_requests w (S k)) = true ->
   forall env s, a !! env = Some s ->
     (error_rate s == 0)%Q /\ success_count s = total_requests s).
Proof.
  intros Hk Ha. rewrite run_printed in Ha.
  assert (a = stage_analysis w (S k) (split_of (S k))) as ->.
  { destruct (reachable w); [| done].
    destruct Hk as [-> | ->]; cbn [phase_of split_of] in *.
    - change (String.eqb "10% Traffic" "50% Traffic") with false in Ha.
      change (String.eqb "50% Traffic" "50% Traffic") with true in Ha.
      destruct (rolls_back w 0 10); [done |]. by injection Ha.
    - change (String.eqb "10% Traffic" "100% Traffic") with false in Ha.
      change (String.eqb "50% Traffic" "100% Traffic") with false in Ha.
      change (String.eqb "100% Traffic" "100% Traffic") with true in Ha.
      destruct (rolls_back w 0 10); [done |].
      destruct (rolls_back w 1 50); [done |]. by injection Ha. }
  split; [done |]. split; [apply stage_totals |].
  intros Hall env s. by apply stage_analysis_all_successful.
Qed.

(** * Concrete runs *)

Lemma cycling_world_in_range (ok : nat -> bool) : draws_in_range (cycling_world ok).
Proof.
  intros i. cbn. pose proof (Z.mod_pos_bound (Z.of_nat i) 100). lia.
Defined.


Lemma p95_is_nearest_rank_witness :
  (p95_latency (summarize ten_outcomes) == 100)%Q.
Proof.
  refine (proj2 (p95_is_nearest_rank ten_outcomes
                   [10; 20; 30; 40; 50; 60; 70; 80; 90; 100]%Q _ _ _)).
  - discriminate.
  - apply (Permutation_rev (map latency ten_outcomes)).
  - repeat constructor; discriminate.
Defined.

Lemma should_rollback_iff_threshold_exceeded_witness :
  (Binary64.should_rollback (Binary64.both (Binary64.summary 2 10) (Binary64.summary 25 10))).1
    = true /\
  (Binary64.should_rollback (Binary64.both (Binary64.summary 2 10) (Binary64.summary 4 10))).1
    = false /\
  (Binary64.should_rollback
     (Binary64.both (Binary64.summary 2 0x1.999999999999ap-4)
                    (Binary64.summary 2 0x1.3333333333335p-3))).1 = true /\
  (Binary64.should_rollback
     (Binary64.both (Binary64.summary 2 0x1.999999999999ap-4)
                    (Binary64.summary 4 0x1.3333333333334p-3))).1 = false.
Proof.
  split; [| split; [| split]].
  - apply (should_rollback_iff_threshold_exceeded
             _ (Binary64.summary 2 10) (Binary64.summary 25 10));
      [reflexivity | reflexivity |].
    left. reflexivity.
  - apply (should_rollback_iff_threshold_exceeded
             _ (Binary64.summary 2 10) (Binary64.summary 4 10));
      reflexivity.
  - apply (should_rollback_iff_threshold_exceeded
             _ (Binary64.summary 2 0x1.999999999999ap-4)
               (Binary64.summary 2 0x1.3333333333335p-3));
      [reflexivity | reflexivity |].
    right. reflexivity.
  - apply (should_rollback_iff_threshold_exceeded
             _ (Binary64.summary 2 0x1.999999999999ap-4)
               (Binary64.summary 4 0x1.3333333333334p-3));
      reflexivity.
Defined.

Lemma should_rollback_false_when_summary_absent_witness :
  should_rollback (<[canary := summary 100 900]> ∅) steady_world init = (false, init).
Proof.
  apply should_rollback_false_when_summary_absent. left. reflexivity.
Defined.

Lemma should_rollback_strict_at_zero_stable_error_rate_witness :
  (should_rollback (both (summary 0 10) (summary (1 # 200) 10)) steady_world init).1 = true.
Proof.
  apply (should_rollback_strict_at_zero_stable_error_rate
           _ (summary 0 10) (summary (1 # 200) 10));
    reflexivity.
Defined.

Lemma degraded_canary_world_in_range : draws_in_range degraded_canary_world.
Proof.
  intros i. cbn. destruct (Nat.even i); cbn; lia.
Defined.

Lemma rollback_is_terminal_witness :
  let a := stage_analysis degraded_canary_world 0 10 in
  (error_rate <$> a !! stable) = Some (200 # 100)%Q /\
  (error_rate <$> a !! canary) = Some (2500 # 100)%Q /\
  rollbacks (trace (run degraded_canary_world)) = 1%nat /\
  promoted (trace (run degraded_canary_world)) = false /\
  printed "50% Traffic" (trace (run degraded_canary_world)) = None /\
  printed "100% Traffic" (trace (run degraded_canary_world)) = None.
Proof.
  intros a.
  destruct (rollback_is_terminal degraded_canary_world "10% Traffic" a)
    as (Hone & Hnot & _).
  - apply degraded_canary_world_in_range.
  - vm_compute. reflexivity.
  - vm_compute. reflexivity.
  - split; [vm_compute; reflexivity |]. split; [vm_compute; reflexivity |].
    split; [exact Hone |]. split; [exact Hnot |].
    split; vm_compute; reflexivity.
Defined.

Lemma stage_window_is_reset_witness :
  forallb (fun r => negb (answered r)) (stage_requests (recovering_world 200) 0) = true /\
  forallb answered (stage_requests (recovering_world 200) 1) = true /\
  exists a, printed "50% Traffic" (trace (run (recovering_world 200))) = Some a /\
    total_of a stable + total_of a canary = 200 /\
    forall env s, a !! env = Some s -> (error_rate s == 0)%Q.
Proof.
  split; [vm_compute; reflexivity |].
  split; [vm_compute; reflexivity |].
  exists (stage_analysis (recovering_world 200) 1 50).
  destruct (stage_window_is_reset (recovering_world 200) 0
              (stage_analysis (recovering_world 200) 1 50)) as (_ & Htotal & Hzero).
  - left. reflexivity.
  - vm_compute. reflexivity.
  - split; [vm_compute; reflexivity |]. split; [exact Htotal |].
    intros env s Hs.
    assert (forallb answered (stage_requests (recovering_world 200) 1) = true) as Hall
      by (vm_compute; reflexivity).
    exact (proj1 (Hzero Hall env s Hs)).
Defined.

Lemma full_split_never_rolls_back_witness :
  let st := (route_traffic 100 steady_world init).2 in
  let st' := (simulate_traffic 200 steady_world st).2 in
  metrics st' !!! stable = [] /\
  len (metrics st' !!! canary) = 200 /\
  (should_rollback (analyze_metrics steady_world st').1 steady_world st').1 = false.
Proof.
  intros st st'.
  destruct (full_split_never_rolls_back steady_world st 200)
    as (_ & _ & Hstable & Hcanary & _ & Hanswer).
  - apply cycling_world_in_range.
  - reflexivity.
  - reflexivity.
  - split; [exact Hstable |]. split; [exact Hcanary |]. exact Hanswer.
Defined.

(** ** Further runs *)

(** The ten latencies 10, 20, ..., 100: the subscript is 9 and the p95
    latency is the largest value. *)
Example p95_of_ten_ascending :
  p95_index (map latency ten_ascending) = 9%nat /\
  p95_latency (summarize ten_ascending) = 100%Q.
Proof. split; reflexivity. Qed.

(** A run in which every query succeeds: the change is applied to the
    canary once and to the stable target once, and never rolled back. *)
Example steady_run :
  length (List.filter (fun e => match e with CanaryChangeApplied => true | _ => false end)
            (trace (run steady_world))) = 1%nat /\
  length (List.filter is_promotion (trace (run steady_world))) = 1%nat /\
  rollbacks (trace (run steady_world)) = 0%nat.
Proof. repeat split; vm_compute; reflexivity. Qed.

(** The hypothesis on the draws cannot be dropped from the statements
    about the last stage: the run does not ask the evaluator after the
    100% stage, so in a world with draws of 101, which
    [random.randint(1, 100)] never returns, it promotes although
    [should_rollback] answers true on the analysis of that stage. *)
Lemma promotion_needs_draws_in_range :
  ~ draws_in_range stray_world /\
  exists a, printed "100% Traffic" (trace (run stray_world)) = Some a /\
            (should_rollback a stray_world (run stray_world)).1 = true /\
            promoted (trace (run stray_world)) = true.
Proof.
  split.
  - intros H. specialize (H 0%nat). cbn in H. lia.
  - exists (stage_analysis stray_world 2 100).
    repeat split; vm_compute; reflexivity.
Qed.

(** * Further properties *)

(** * More on the analyzer *)

(** The quotient [x / t * 100] for integers [0 <= x <= t], [0 < t]. *)
Lemma percentage_bounds (x t : Z) :
  0 < t -> 0 <= x <= t ->
  (0 <= inject_Z x / inject_Z t * 100 <= 100)%Q /\
  ((inject_Z x / inject_Z t * 100 == 0)%Q <-> x = 0) /\
  ((inject_Z x / inject_Z t * 100 == 100)%Q <-> x = t).
Proof.
  intros Ht Hx. destruct t as [|t|t]; try lia.
  unfold Qle, Qeq, Qdiv, Qmult, Qinv, inject_Z. cbn.
  repeat split; try nia.
Qed.

Lemma length_filter_le {A} (P : A -> Prop) `{!forall x, Decision (P x)} (l : list A) :
  (length (filter P l) <= length l)%nat.
Proof.
  induction l as [|x l IH]; [done |].
  rewrite filter_cons. destruct (decide (P x)); cbn [length]; lia.
Qed.

Lemma length_filter_all {A} (P : A -> Prop) `{!forall x, Decision (P x)} (l : list A) :
  length (filter P l) = length l <-> Forall P l.
Proof.
  induction l as [|x l IH]; [by split |].
  rewrite filter_cons, Forall_cons.
  pose proof (length_filter_le P l).
  destruct (decide (P x)); cbn [length]; split.
  - intros E. split; [done |]. apply IH. lia.
  - intros [_ Hl]. apply IH in Hl. lia.
  - lia.
  - by intros [? _].
Qed.

Lemma length_filter_none {A} (P : A -> Prop) `{!forall x, Decision (P x)} (l : list A) :
  length (filter P l) = 0%nat <-> Forall (fun x => ~ P x) l.
Proof.
  induction l as [|x l IH]; [by split |].
  rewrite filter_cons, Forall_cons.
  destruct (decide (P x)); cbn [length]; split.
  - lia.
  - by intros [? _].
  - intros E. split; [done |]. by apply IH.
  - intros [_ Hl]. by apply IH.
Qed.

(** X1.  For a non-empty list of outcomes the summary has
    [0 <= success_count <= total_requests] and an error rate between 0
    and 100, which is 0 exactly when every outcome succeeded and 100
    exactly when every outcome failed. *)
Theorem summary_is_consistent (ms : list Metric) :
  ms <> [] ->
  0 <= success_count (summarize ms) <= total_requests (summarize ms) /\
  (0 <= error_rate (summarize ms) <= 100)%Q /\
  ((error_rate (summarize ms) == 0)%Q <-> Forall (fun m => success m = true) ms) /\
  ((error_rate (summarize ms) == 100)%Q <-> Forall (fun m => success m = false) ms).
Proof.
  intros Hne.
  pose proof (length_filter_le (fun m => success m = true) ms) as Hle.
  assert (0 < len ms) as Hpos by (destruct ms; [done | unfold len; rewrite length_cons; lia]).
  rewrite summarize_error_rate, summarize_total, summarize_success_count by done.
  unfold len in *.
  destruct (percentage_bounds
              (Z.of_nat (length ms) - Z.of_nat (length (filter (fun m => success m = true) ms)))
              (Z.of_nat (length ms))) as (Hb & Hz & Hh); [lia | lia |].
  split; [lia |]. split; [exact Hb |]. split.
  - split; intros H.
    + apply (proj1 (length_filter_all _ ms)). apply Hz in H. lia.
    + apply Hz. apply (proj2 (length_filter_all _ ms)) in H. lia.
  - assert (Forall (fun m => success m = false) ms
            <-> Forall (fun m => ~ success m = true) ms) as ->.
    { apply Forall_iff. intros m. by destruct (success m). }
    split; intros H.
    + apply (proj1 (length_filter_none (fun m => success m = true) ms)).
      apply Hh in H. lia.
    + apply Hh. apply (proj2 (length_filter_none (fun m => success m = true) ms)) in H. lia.
Qed.

(** ** Sums, ranks and bounds *)

Lemma nth_in_range (l : list Q) (i : nat) :
  (i < length l)%nat -> In (nth i l 0%Q) l.
Proof. apply List.nth_In. Qed.

Lemma p95_in_latencies (ms : list Metric) :
  ms <> [] -> In (p95_latency (summarize ms)) (map latency ms).
Proof.
  intros Hne. rewrite summarize_p95_latency by done.
  assert (map latency ms <> []) as Hne' by (by destruct ms).
  eapply Permutation_in; [symmetry; apply sorted_perm |].
  apply nth_in_range. rewrite <- (Permutation_length (sorted_perm _)).
  by apply p95_index_lt.
Qed.

(** In an ascending list the entry at a later position is no smaller. *)
Lemma ascending_nth_le (l : list Q) (j i : nat) :
  StronglySorted Qle l -> (j <= i)%nat -> (i < length l)%nat ->
  (nth j l 0 <= nth i l 0)%Q.
Proof.
  intros Hs. revert j i. induction Hs as [|a l Hs IH Ha]; intros j i Hji Hi.
  - cbn in Hi. lia.
  - destruct i as [|i].
    + assert (j = 0)%nat as -> by lia. apply Qle_refl.
    + cbn [length] in Hi. destruct j as [|j]; cbn [nth].
      * rewrite Forall_forall in Ha. apply Ha, list_elem_of_In, nth_in_range. lia.
      * apply IH; lia.
Qed.

Lemma sorted_strongly (l : list Q) : StronglySorted Qle (sorted l).
Proof.
  apply Sorted_StronglySorted; [exact Qle_trans | apply sorted_sorted].
Qed.

(** X2.  The p95 latency is one of the recorded latencies, so it lies
    within any bounds that hold for all of them. *)
Theorem p95_within_latencies (ms : list Metric) (lo hi : Q) :
  ms <> [] ->
  Forall (fun m => lo <= latency m <= hi)%Q ms ->
  In (p95_latency (summarize ms)) (map latency ms) /\
  (lo <= p95_latency (summarize ms) <= hi)%Q.
Proof.
  intros Hne Hall.
  assert (Forall (fun x => lo <= x <= hi)%Q (map latency ms)) as Hall'.
  { by apply Forall_fmap. }
  pose proof (p95_in_latencies ms Hne) as Hin.
  split; [done |].
  rewrite Forall_forall in Hall'. by apply Hall', list_elem_of_In.
Qed.

Lemma p95_index_small (l : list Q) :
  (1 <= length l <= 20)%nat -> p95_index l = (length l - 1)%nat.
Proof.
  intros Hn. rewrite p95_index_length.
  assert (Z.of_nat (length l) * 95 / 100 = Z.of_nat (length l) - 1) as ->; [| lia].
  symmetry. apply (Z.div_unique _ _ _ (100 - 5 * Z.of_nat (length l))); lia.
Qed.

(** X3.  With at most 20 outcomes the p95 latency is the largest latency. *)
Theorem p95_is_maximum_up_to_20 (ms : list Metric) :
  ms <> [] ->
  (length ms <= 20)%nat ->
  In (p95_latency (summarize ms)) (map latency ms) /\
  Forall (fun m => latency m <= p95_latency (summarize ms))%Q ms.
Proof.
  intros Hne Hn. split; [by apply p95_in_latencies |].
  rewrite summarize_p95_latency by done.
  assert (1 <= length (map latency ms) <= 20)%nat as Hn'.
  { rewrite length_map. destruct ms; [done | cbn [length] in *; lia]. }
  rewrite (p95_index_small _ Hn').
  rewrite (Permutation_length (sorted_perm (map latency ms))) in *.
  apply Forall_forall. intros m Hm.
  assert (In (latency m) (sorted (map latency ms))) as Hin.
  { eapply Permutation_in; [apply sorted_perm |].
    apply in_map, list_elem_of_In, Hm. }
  apply (In_nth _ _ 0%Q) in Hin as (j & Hj & <-).
  apply ascending_nth_le; [apply sorted_strongly | lia | lia].
Qed.

Lemma count_above_ascending (l : list Q) (k : nat) :
  StronglySorted Qle l -> (k < length l)%nat ->
  (length (List.filter (fun x => gtb x (nth k l 0%Q)) l) + (k + 1) <= length l)%nat.
Proof.
  intros Hs. revert k. induction Hs as [|a l Hs IH Ha]; intros k Hk.
  - cbn in Hk. lia.
  - cbn [length] in Hk. destruct k as [|k]; cbn [nth List.filter].
    + rewrite (proj2 (gtb_le a a)) by apply Qle_refl.
      pose proof (List.filter_length_le (fun x => gtb x a) l). cbn [length]. lia.
    + assert (gtb a (nth k l 0%Q) = false) as ->.
      { apply gtb_le. rewrite Forall_forall in Ha.
        apply Ha, list_elem_of_In, nth_in_range. lia. }
      specialize (IH k). cbn [length]. lia.
Qed.

Lemma count_permutation (f : Q -> bool) (l l' : list Q) :
  Permutation l l' -> length (List.filter f l) = length (List.filter f l').
Proof.
  induction 1 as [|x l l' _ IH|x y l|l l' l'' _ IH1 _ IH2]; cbn [List.filter].
  - done.
  - destruct (f x); cbn [length]; lia.
  - destruct (f x), (f y); cbn [length]; lia.
  - lia.
Qed.

(** X4.  Fewer than one in twenty of the recorded latencies exceed the
    p95 latency. *)
Theorem fewer_than_5_percent_above_p95 (ms : list Metric) :
  ms <> [] ->
  (20 * length (List.filter (fun x => gtb x (p95_latency (summarize ms))) (map latency ms))
   < length ms)%nat.
Proof.
  intros Hne. rewrite summarize_p95_latency by done.
  assert (map latency ms <> []) as Hne' by (by destruct ms).
  pose proof (p95_index_lt _ Hne') as Hlt.
  rewrite (count_permutation _ _ _ (sorted_perm (map latency ms))).
  pose proof (count_above_ascending (sorted (map latency ms))
                (p95_index (map latency ms)) (sorted_strongly _)) as Hc.
  rewrite <- (Permutation_length (sorted_perm _)) in Hc. specialize (Hc Hlt).
  rewrite p95_index_length in *. rewrite length_map in *.
  pose proof (Z.div_mod (Z.of_nat (length ms) * 95) 100).
  pose proof (Z.mod_pos_bound (Z.of_nat (length ms) * 95) 100).
  lia.
Qed.

(** ** Divisions and subscripts that cannot fail *)

Lemma checked_div_nonzero (x y : Q) : ~ (y == 0)%Q -> checked_div x y = Some (x / y)%Q.
Proof.
  intros Hy. unfold checked_div.
  destruct (Qeq_bool y 0) eqn:E; [| done].
  by apply Qeq_bool_iff in E.
Qed.

Lemma inject_Z_nonzero (n : Z) : 0 < n -> ~ (inject_Z n == 0)%Q.
Proof. unfold Qeq. cbn. lia. Qed.

Lemma subscript_in_range (l : list Q) (i : nat) :
  (i < length l)%nat -> subscript l (Z.of_nat i) = Some (nth i l 0%Q).
Proof.
  intros Hi. unfold subscript, len.
  rewrite (proj2 (Z.ltb_ge _ _)) by lia.
  rewrite (proj2 (Z.leb_le _ _)), (proj2 (Z.ltb_lt _ _)) by lia.
  cbn [andb]. rewrite Nat2Z.id.
  destruct (lookup_lt_is_Some_2 l i Hi) as [x Hx].
  rewrite Hx. f_equal. symmetry. by apply nth_lookup_Some.
Qed.

Lemma int_of_index (l : list Q) :
  int_of (inject_Z (len l) * 0.95)%Q = Z.of_nat (p95_index l).
Proof.
  unfold p95_index. rewrite Z2Nat.id; [done |].
  unfold int_of, len. cbn [Qmult inject_Z Qnum Qden].
  rewrite Z.quot_div_nonneg by lia. apply Z.div_pos; lia.
Qed.

(** X5.  The computation of a summary raises neither [ZeroDivisionError]
    nor [IndexError], whatever the list of outcomes. *)
Theorem analyzer_does_not_raise (ms : list Metric) :
  summarize_checked ms = Some (summarize ms).
Proof.
  destruct ms as [|m ms]; [reflexivity |].
  unfold summarize_checked, summarize.
  set (l := m :: ms).
  assert (0 < len l) as Hpos by (unfold len, l; rewrite length_cons; lia).
  rewrite (proj2 (Z.ltb_lt _ _) Hpos).
  rewrite checked_div_nonzero by by apply inject_Z_nonzero.
  assert (map latency l <> []) as Hne by done.
  assert (0 < len (map latency l)) as Hpos'.
  { unfold len. rewrite length_map. exact Hpos. }
  destruct (map latency l) as [|x xs] eqn:E; [done |].
  rewrite checked_div_nonzero by by apply inject_Z_nonzero.
  rewrite int_of_index, subscript_in_range; [done |].
  rewrite <- (Permutation_length (sorted_perm _)). by apply p95_index_lt.
Qed.


(** * More on the evaluator *)

(** X7.  A canary that is no worse than stable on both figures is never
    rolled back, and nothing is logged. *)
Theorem no_rollback_when_canary_is_no_worse
    (analysis : gmap string Summary) (s c : Summary) (w : World) (st : State) :
  analysis !! stable = Some s ->
  analysis !! canary = Some c ->
  (0 <= error_rate s)%Q -> (0 <= p95_latency s)%Q ->
  (error_rate c <= error_rate s)%Q ->
  (p95_latency c <= p95_latency s)%Q ->
  should_rollback analysis w st = (false, st).
Proof.
  intros Hs Hc He Hp Hec Hpc.
  assert (rollback_decision analysis = (false, [])) as E.
  { unfold rollback_decision. rewrite Hs, Hc.
    rewrite (proj2 (gtb_le (error_rate c) (error_rate s * 2))) by lra.
    by rewrite (proj2 (gtb_le (p95_latency c) (p95_latency s * 1.5))) by lra. }
  rewrite should_rollback_spec, E. cbn. rewrite app_nil_r. by destruct st.
Qed.

(** X8.  [should_rollback] logs one warning when it answers true and none
    when it answers false; the error rate is tested first, so a canary
    over both thresholds is reported as an error rate spike.  The
    tests are those of the script on doubles. *)
Theorem should_rollback_logs_its_reason
    (analysis : gmap string Binary64.Summary) (s c : Binary64.Summary) :
  analysis !! stable = Some s ->
  analysis !! canary = Some c ->
  ((Binary64.error_rate s * 2 <? Binary64.error_rate c)%float = true ->
     Binary64.should_rollback analysis = (true, [ErrorRateSpike])) /\
  ((Binary64.error_rate s * 2 <? Binary64.error_rate c)%float = false ->
   (Binary64.p95_latency s * 1.5 <? Binary64.p95_latency c)%float = true ->
     Binary64.should_rollback analysis = (true, [LatencyDegradation])) /\
  ((Binary64.should_rollback analysis).1 = false ->
     (Binary64.should_rollback analysis).2 = []) /\
  ((Binary64.should_rollback analysis).1 = true ->
     length (Binary64.should_rollback analysis).2 = 1%nat).
Proof.
  intros Hs Hc. unfold Binary64.should_rollback, Binary64.exceeds. rewrite Hs, Hc.
  destruct (_ * 2 <? _)%float; [by repeat split |].
  destruct (_ * 1.5 <? _)%float; by repeat split.
Qed.

(** * More on the traffic loop *)

Lemma label_stable (p : Z) (r : Request) : p < draw r -> label p r = stable.
Proof. intros H. unfold label. by rewrite (proj2 (Z.leb_gt _ _) H). Qed.

Lemma no_canary_at_zero_split (p : Z) (rs : list Request) :
  p <= 0 ->
  Forall (fun r => 1 <= draw r <= 100) rs ->
  filter (fun r => label p r = canary) rs = [] /\
  filter (fun r => label p r = stable) rs = rs.
Proof.
  intros Hp. induction 1 as [|r rs Hr _ [IHc IHs]]; [by split |].
  rewrite !filter_cons, IHc, IHs. rewrite label_stable by lia.
  rewrite decide_False by done. by rewrite decide_True.
Qed.

(** X11.  With a split of 0 or less, as it is before [route_traffic] is
    called, no request is sent to the canary: the canary list stays
    empty, the analysis has no canary summary and [should_rollback]
    answers false whatever the outcomes are. *)
Theorem zero_split_sends_nothing_to_canary (w : World) (st : State) (n : nat) :
  draws_in_range w ->
  canary_percentage st <= 0 ->
  metrics st = empty_metrics ->
  let st' := (simulate_traffic n w st).2 in
  let analysis := (analyze_metrics w st').1 in
  metrics st' !!! canary = [] /\
  metrics st' !!! stable = map outcome (requests w (served st) n) /\
  analysis !! canary = None /\
  (should_rollback analysis w st').1 = false.
Proof.
  intros Hw Hp Hm st' analysis. subst st' analysis.
  rewrite simulate_traffic_spec. cbn [snd fst metrics analyze_metrics bind get ret].
  rewrite Hm.
  destruct (no_canary_at_zero_split (canary_percentage st) (requests w (served st) n) Hp)
    as [Hc Hs]; [by apply requests_in_range |].
  assert (window (canary_percentage st) empty_metrics (requests w (served st) n) !!! canary = [])
    as Hcanary.
  { rewrite window_empty_metrics by (by right). by rewrite Hc. }
  split; [done |]. split; [| split].
  - rewrite window_empty_metrics by (by left). by rewrite Hs.
  - rewrite analyze_lookup_canary. by rewrite Hcanary.
  - rewrite should_rollback_spec, rollback_decision_absent; [done |].
    right. rewrite analyze_lookup_canary. by rewrite Hcanary.
Qed.

Lemma executed_queried (p : Z) (rs : list Request) :
  executed true (map (queried p) rs) = map outcome (filter (fun r => label p r = canary) rs) /\
  executed false (map (queried p) rs) = map outcome (filter (fun r => label p r = stable) rs).
Proof.
  induction rs as [|r rs [IHc IHs]]; [by split |].
  cbn [map executed]. rewrite !filter_cons, IHc, IHs. unfold queried.
  destruct (draw r <=? p) eqn:E; cbn [Bool.eqb].
  - assert (label p r = canary) as -> by (unfold label; by rewrite E).
    rewrite (decide_True (P := canary = canary)) by done.
    by rewrite (decide_False (P := canary = stable)).
  - assert (label p r = stable) as -> by (unfold label; by rewrite E).
    rewrite (decide_False (P := stable = canary)) by done.
    by rewrite (decide_True (P := stable = stable)).
Qed.

Lemma other_keys_unlabelled (p : Z) (env : string) (rs : list Request) :
  env <> stable -> env <> canary -> filter (fun r => label p r = env) rs = [].
Proof.
  intros Hs Hc. induction rs as [|r rs IH]; [done |].
  rewrite filter_cons, IH. rewrite decide_False; [done |].
  unfold label. destruct (draw r <=? p); congruence.
Qed.

Lemma forallb_queried (p : Z) (rs : list Request) :
  forallb is_query (map (queried p) rs) = true.
Proof. by induction rs. Qed.

Lemma requests_app (w : World) (start n m : nat) :
  requests w start (n + m) = requests w start n ++ requests w (start + n) m.
Proof. unfold requests. by rewrite seq_app, map_app. Qed.

(** X13.  Two calls of the traffic loop in a row, with no reset between
    them, leave the controller as one call for the sum of the requests:
    the window keeps accumulating until it is reset. *)
Theorem simulate_traffic_accumulates (w : World) (st : State) (n m : nat) :
  (simulate_traffic n ;; simulate_traffic m) w st = simulate_traffic (n + m) w st.
Proof.
  unfold bind. rewrite !simulate_traffic_spec.
  cbn [connected canary_percentage metrics served trace].
  rewrite requests_app. unfold window. rewrite foldl_app, map_app, app_assoc.
  by rewrite Nat.add_assoc.
Qed.

(** * More on the run *)

Lemma queries_app (t1 t2 : list Event) : queries (t1 ++ t2) = (queries t1 + queries t2)%nat.
Proof. unfold queries. by rewrite List.filter_app, length_app. Qed.

Lemma reports_app (t1 t2 : list Event) : reports (t1 ++ t2) = (reports t1 + reports t2)%nat.
Proof. unfold reports. by rewrite List.filter_app, length_app. Qed.

Lemma changes_app (t1 t2 : list Event) : changes (t1 ++ t2) = (changes t1 + changes t2)%nat.
Proof. unfold changes. by rewrite List.filter_app, length_app. Qed.

Lemma changes_cons (e : Event) (t : list Event) :
  changes (e :: t) = ((if is_change e then 1 else 0) + changes t)%nat.
Proof. unfold changes. cbn [List.filter]. by destruct (is_change e). Qed.

Lemma changes_queried (p : Z) (rs : list Request) : changes (map (queried p) rs) = 0%nat.
Proof. unfold changes. by induction rs. Qed.

Lemma changes_warned (ws : list Warning) : changes (map Warned ws) = 0%nat.
Proof. unfold changes. by induction ws. Qed.

Lemma changes_stage_trace (w : World) (k : nat) (p : Z) (phase : string) :
  changes (stage_trace w k p phase) = 0%nat.
Proof.
  unfold stage_trace.
  rewrite changes_cons, changes_app, changes_queried, changes_cons, changes_warned.
  reflexivity.
Qed.

Lemma schema_after_app (t1 t2 : list Event) (s : Schema) :
  schema_after (t1 ++ t2) s = schema_after t2 (schema_after t1 s).
Proof. apply fold_left_app. Qed.

Lemma schema_after_cons (e : Event) (t : list Event) (s : Schema) :
  schema_after (e :: t) s = schema_after t (apply_event s e).
Proof. reflexivity. Qed.

Lemma schema_after_queried (p : Z) (rs : list Request) (s : Schema) :
  schema_after (map (queried p) rs) s = s.
Proof. unfold schema_after. by induction rs. Qed.

Lemma schema_after_warned (ws : list Warning) (s : Schema) :
  schema_after (map Warned ws) s = s.
Proof. unfold schema_after. by induction ws. Qed.

Lemma schema_after_stage_trace (w : World) (k : nat) (p : Z) (phase : string) (s : Schema) :
  schema_after (stage_trace w k p phase) s = s.
Proof.
  unfold stage_trace.
  change (Routed p :: ?t) with ([Routed p] ++ t).
  rewrite !schema_after_app, schema_after_queried.
  change (MetricsPrinted ?a ?ph :: ?t) with ([MetricsPrinted a ph] ++ t).
  by rewrite schema_after_app, schema_after_warned.
Qed.

Lemma routed_app (t1 t2 : list Event) : routed (t1 ++ t2) = routed t1 ++ routed t2.
Proof.
  induction t1 as [|e t1 IH]; [done |].
  destruct e; cbn [app routed]; by rewrite ?IH.
Qed.

Lemma queries_queried (p : Z) (rs : list Request) :
  queries (map (queried p) rs) = length rs.
Proof. unfold queries. induction rs as [|r rs IH]; [done |]. cbn. by rewrite IH. Qed.

Lemma reports_queried (p : Z) (rs : list Request) : reports (map (queried p) rs) = 0%nat.
Proof. unfold reports. by induction rs. Qed.

Lemma routed_queried (p : Z) (rs : list Request) : routed (map (queried p) rs) = [].
Proof. by induction rs. Qed.

Lemma queries_warned (ws : list Warning) : queries (map Warned ws) = 0%nat.
Proof. unfold queries. by induction ws. Qed.

Lemma reports_warned (ws : list Warning) : reports (map Warned ws) = 0%nat.
Proof. unfold reports. by induction ws. Qed.

Lemma routed_warned (ws : list Warning) : routed (map Warned ws) = [].
Proof. by induction ws. Qed.

Lemma length_stage_requests (w : World) (k : nat) : length (stage_requests w k) = 200%nat.
Proof. unfold stage_requests, requests. by rewrite length_map, length_seq. Qed.

Lemma queries_stage_trace (w : World) (k : nat) (p : Z) (phase : string) :
  queries (stage_trace w k p phase) = 200%nat.
Proof.
  unfold stage_trace.
  change (Routed p :: ?t) with ([Routed p] ++ t).
  rewrite !queries_app, queries_queried, length_stage_requests.
  change (MetricsPrinted ?a ?ph :: ?t) with ([MetricsPrinted a ph] ++ t).
  by rewrite queries_app, queries_warned.
Qed.

Lemma reports_stage_trace (w : World) (k : nat) (p : Z) (phase : string) :
  reports (stage_trace w k p phase) = 1%nat.
Proof.
  unfold stage_trace.
  change (Routed p :: ?t) with ([Routed p] ++ t).
  rewrite !reports_app, reports_queried.
  change (MetricsPrinted ?a ?ph :: ?t) with ([MetricsPrinted a ph] ++ t).
  by rewrite reports_app, reports_warned.
Qed.

Lemma routed_stage_trace (w : World) (k : nat) (p : Z) (phase : string) :
  routed (stage_trace w k p phase) = [p].
Proof.
  unfold stage_trace. cbn [routed]. rewrite routed_app, routed_queried.
  cbn [routed app]. by rewrite routed_warned.
Qed.

Lemma queries_cons (e : Event) (t : list Event) :
  queries (e :: t) = ((if is_query e then 1 else 0) + queries t)%nat.
Proof. unfold queries. cbn [List.filter]. by destruct (is_query e). Qed.

Lemma reports_cons (e : Event) (t : list Event) :
  reports (e :: t) = ((if is_report e then 1 else 0) + reports t)%nat.
Proof. unfold reports. cbn [List.filter]. by destruct (is_report e). Qed.

Lemma stage_trace_stage_like (w : World) (k : nat) (p : Z) (phase : string) :
  stage_like p (stage_trace w k p phase).
Proof.
  unfold stage_like. split; [| split; [| split; [| split; [| split; [| split]]]]].
  - apply queries_stage_trace.
  - apply reports_stage_trace.
  - apply routed_stage_trace.
  - apply rollbacks_stage_trace.
  - apply promoted_stage_trace.
  - apply changes_stage_trace.
  - apply schema_after_stage_trace.
Qed.

Lemma last_stage_stage_like (w : World) :
  stage_like 100
    (Routed 100 :: map (queried 100) (stage_requests w 2)
       ++ [MetricsPrinted (stage_analysis w 2 100) "100% Traffic"]).
Proof.
  unfold stage_like. split; [| split; [| split; [| split; [| split; [| split]]]]].
  - rewrite queries_cons, queries_app, queries_queried, length_stage_requests. reflexivity.
  - rewrite reports_cons, reports_app, reports_queried. reflexivity.
  - cbn [routed]. rewrite routed_app, routed_queried. reflexivity.
  - rewrite rollbacks_cons, rollbacks_app, rollbacks_queried. reflexivity.
  - rewrite promoted_cons, promoted_app, promoted_queried. reflexivity.
  - rewrite changes_cons, changes_app, changes_queried. reflexivity.
  - intros s. change (Routed 100 :: ?t) with ([Routed 100] ++ t).
    by rewrite !schema_after_app, schema_after_queried.
Qed.

(** The trace of a run with the events of each stage kept abstract. *)
Lemma run_shape (w : World) :
  exists t0 t1 t2 : list Event,
    stage_like 10 t0 /\ stage_like 50 t1 /\ stage_like 100 t2 /\
    trace (run w) =
      if reachable w then
        [Connected true; SetupDone; CanaryChangeApplied] ++ t0
        ++ (if rolls_back w 0 10 then [CanaryRolledBack] else
            Slept :: t1
            ++ (if rolls_back w 1 50 then [CanaryRolledBack] else
                Slept :: t2 ++ [StablePromoted]))
      else [Connected false].
Proof.
  exists (stage_trace w 0 10 "10% Traffic"), (stage_trace w 1 50 "50% Traffic"),
    (Routed 100 :: map (queried 100) (stage_requests w 2)
       ++ [MetricsPrinted (stage_analysis w 2 100) "100% Traffic"]).
  split; [apply stage_trace_stage_like |].
  split; [apply stage_trace_stage_like |].
  split; [apply last_stage_stage_like |].
  rewrite run_trace.
  destruct (reachable w); [| done].
  destruct (rolls_back w 0 10); [done |].
  destruct (rolls_back w 1 50); [done |].
  cbn [app]. by rewrite <- app_assoc.
Qed.

Ltac count_run w :=
  unfold stages_run;
  destruct (run_shape w)
    as (t0 & t1 & t2 & (Hq0 & Hr0 & Hd0 & Hb0 & Hp0 & Hc0 & _)
        & (Hq1 & Hr1 & Hd1 & Hb1 & Hp1 & Hc1 & _)
        & (Hq2 & Hr2 & Hd2 & Hb2 & Hp2 & Hc2 & _) & ->);
  destruct (reachable w); [| try reflexivity];
  [destruct (rolls_back w 0 10); [| destruct (rolls_back w 1 50)] | ..];
  repeat first
    [ rewrite queries_app | rewrite reports_app | rewrite routed_app
    | rewrite rollbacks_app | rewrite promoted_app | rewrite changes_app
    | rewrite queries_cons | rewrite reports_cons
    | rewrite rollbacks_cons | rewrite promoted_cons | rewrite changes_cons ];
  rewrite ?Hq0, ?Hr0, ?Hd0, ?Hb0, ?Hp0, ?Hc0, ?Hq1, ?Hr1, ?Hd1, ?Hb1, ?Hp1, ?Hc1,
    ?Hq2, ?Hr2, ?Hd2, ?Hb2, ?Hp2, ?Hc2.

Lemma run_queries (w : World) : queries (trace (run w)) = (200 * stages_run w)%nat.
Proof. count_run w; reflexivity. Qed.

Lemma run_reports (w : World) : reports (trace (run w)) = stages_run w.
Proof. count_run w; reflexivity. Qed.

Lemma run_routed (w : World) : routed (trace (run w)) = take (stages_run w) [10; 50; 100].
Proof.
  count_run w;
    do 3 (cbn [routed app]; rewrite ?routed_app, ?Hd0, ?Hd1, ?Hd2);
    reflexivity.
Qed.

Lemma run_promoted_stages (w : World) :
  promoted (trace (run w)) = (stages_run w =? 3)%nat.
Proof.
  rewrite run_promoted. unfold stages_run.
  by destruct (reachable w), (rolls_back w 0 10), (rolls_back w 1 50).
Qed.

Lemma run_rollbacks_stages (w : World) :
  rollbacks (trace (run w)) =
  if reachable w && negb (stages_run w =? 3)%nat then 1%nat else 0%nat.
Proof.
  rewrite run_rollbacks. unfold stages_run.
  by destruct (reachable w), (rolls_back w 0 10), (rolls_back w 1 50).
Qed.

Ltac count_before :=
  repeat first
    [ rewrite rollbacks_app | rewrite promoted_app
    | rewrite rollbacks_cons | rewrite promoted_cons ];
  match goal with
  | Hb0 : rollbacks _ = 0%nat, Hp0 : promoted _ = false |- _ => idtac
  end;
  repeat match goal with
  | H : rollbacks _ = 0%nat |- _ => rewrite H; clear H
  | H : promoted _ = false |- _ => rewrite H; clear H
  end;
  by split.

(** The index after a run without exceptions: in both databases
    when the run promoted, otherwise absent from the canary; a run that
    cannot connect changes neither. *)
Lemma plain_run_index (w : World) (s : Schema) :
  schema_after (trace (run w)) s =
  if reachable w then
    if promoted (trace (run w))
    then {| canary_index := true; stable_index := true |}
    else {| canary_index := false; stable_index := stable_index s |}
  else s.
Proof.
  rewrite run_promoted.
  destruct (run_shape w)
    as (t0 & t1 & t2 & (_ & _ & _ & _ & _ & _ & Hn0) & (_ & _ & _ & _ & _ & _ & Hn1)
        & (_ & _ & _ & _ & _ & _ & Hn2) & ->).
  destruct (reachable w); [| reflexivity].
  destruct (rolls_back w 0 10); [| destruct (rolls_back w 1 50)];
    repeat first [rewrite schema_after_app | rewrite schema_after_cons
                 | rewrite Hn0 | rewrite Hn1 | rewrite Hn2];
    reflexivity.
Qed.

(** ** Runs decided by the outcomes of the first stages *)

Lemma window_analysis_lookup (p : Z) (rs : list Request) (env : string) :
  env = stable \/ env = canary ->
  analyze (window p empty_metrics rs) !! env =
  match map outcome (filter (fun r => label p r = env) rs) with
  | [] => None
  | ms => Some (summarize ms)
  end.
Proof.
  intros Henv. by rewrite (analyze_lookup _ env Henv), window_empty_metrics.
Qed.

Lemma stage_requests_elem (w : World) (k : nat) (r : Request) :
  r ∈ stage_requests w k ->
  exists i, (200 * k <= i < 200 * k + 200)%nat /\ r = request w i.
Proof.
  unfold stage_requests, requests. intros Hr.
  apply list_elem_of_fmap in Hr as [i [-> Hi]].
  apply list_elem_of_In, in_seq in Hi. by exists i.
Qed.

Lemma elem_stage_requests (w : World) (k i : nat) :
  (200 * k <= i < 200 * k + 200)%nat -> request w i ∈ stage_requests w k.
Proof.
  intros Hi. unfold stage_requests, requests.
  apply list_elem_of_fmap. exists i. split; [done |].
  apply list_elem_of_In, in_seq. lia.
Qed.

Lemma outcomes_within (P : Request -> Prop) `{!forall r, Decision (P r)}
    (lo hi : Q) (rs : list Request) :
  Forall (fun r => answered r = true /\ (lo <= millis r <= hi)%Q) rs ->
  Forall (fun m => success m = true) (map outcome (filter P rs)) /\
  Forall (fun m => lo <= latency m <= hi)%Q (map outcome (filter P rs)).
Proof.
  intros Hall. rewrite Forall_forall in Hall.
  split; apply Forall_forall; intros m Hm;
    apply list_elem_of_fmap in Hm as [r [-> Hr]];
    apply list_elem_of_filter in Hr as [_ Hr]; by apply Hall in Hr as [? ?].
Qed.

Lemma p95_within (ms : list Metric) (lo hi : Q) :
  ms <> [] ->
  Forall (fun m => lo <= latency m <= hi)%Q ms ->
  (lo <= p95_latency (summarize ms) <= hi)%Q.
Proof.
  intros Hne Hall. pose proof (p95_in_latencies ms Hne) as Hin.
  apply in_map_iff in Hin as (m & <- & Hm).
  rewrite Forall_forall in Hall. by apply Hall, list_elem_of_In.
Qed.

Lemma healthy_window_passes (p : Z) (lo hi : Q) (rs : list Request) :
  (hi <= lo * 1.5)%Q ->
  Forall (fun r => answered r = true /\ (lo <= millis r <= hi)%Q) rs ->
  rollback_decision (analyze (window p empty_metrics rs)) = (false, []).
Proof.
  intros Hband Hall. unfold rollback_decision.
  rewrite !window_analysis_lookup by auto.
  destruct (outcomes_within (fun r => label p r = canary) lo hi rs Hall) as [Hcs Hcl].
  destruct (outcomes_within (fun r => label p r = stable) lo hi rs Hall) as [Hss Hsl].
  destruct (map outcome (filter (fun r => label p r = canary) rs)) as [|c cs]; [done |].
  destruct (map outcome (filter (fun r => label p r = stable) rs)) as [|s ss]; [done |].
  destruct (summarize_all_successful (c :: cs)) as [Hc0 _]; [done | done |].
  destruct (summarize_all_successful (s :: ss)) as [Hs0 _]; [done | done |].
  pose proof (p95_within (c :: cs) lo hi) as Hpc.
  pose proof (p95_within (s :: ss) lo hi) as Hps.
  rewrite (proj2 (gtb_le _ _)) by (rewrite Hc0, Hs0; lra).
  rewrite (proj2 (gtb_le _ _)); [done |].
  destruct Hpc as [_ Hpc]; [done | done |]. destruct Hps as [Hps _]; [done | done |].
  lra.
Qed.

Lemma summarize_error_rate_positive (ms : list Metric) :
  Exists (fun m => success m = false) ms -> (0 < error_rate (summarize ms))%Q.
Proof.
  intros Hex.
  assert (ms <> []) as Hne by (intros ->; by apply Exists_nil in Hex).
  pose proof (length_filter_le (fun m => success m = true) ms) as Hle.
  assert (length (filter (fun m => success m = true) ms) <> length ms) as Hneq.
  { intros E. apply (proj1 (length_filter_all _ ms)) in E.
    apply Exists_exists in Hex as (m & Hm & Hf).
    rewrite Forall_forall in E. apply E in Hm. congruence. }
  assert (0 < len ms) as Hpos by (destruct ms; [done | unfold len; rewrite length_cons; lia]).
  rewrite summarize_error_rate, summarize_success_count by done.
  unfold len in *.
  destruct (percentage_bounds
              (Z.of_nat (length ms) - Z.of_nat (length (filter (fun m => success m = true) ms)))
              (Z.of_nat (length ms))) as ([Hb _] & Hz & _); [lia | lia |].
  apply Qle_lteq in Hb as [Hb | Hb]; [done |].
  symmetry in Hb. apply Hz in Hb. lia.
Qed.

Lemma failing_canary_window_rolls_back (p : Z) (rs : list Request) :
  Exists (fun r => label p r = canary /\ answered r = false) rs ->
  Exists (fun r => label p r = stable) rs ->
  Forall (fun r => label p r = stable -> answered r = true) rs ->
  rollback_decision (analyze (window p empty_metrics rs)) = (true, [ErrorRateSpike]).
Proof.
  intros Hbad Hsome Hgood. unfold rollback_decision.
  rewrite !window_analysis_lookup by auto.
  assert (Exists (fun m => success m = false)
            (map outcome (filter (fun r => label p r = canary) rs))) as Hc.
  { apply Exists_exists in Hbad as (r & Hr & Hl & Ha).
    apply Exists_exists. exists (outcome r). split; [| done].
    apply list_elem_of_fmap. exists r. split; [done |]. by apply list_elem_of_filter. }
  assert (Forall (fun m => success m = true)
            (map outcome (filter (fun r => label p r = stable) rs))) as Hs.
  { apply Forall_forall. intros m Hm.
    apply list_elem_of_fmap in Hm as [r [-> Hr]].
    apply list_elem_of_filter in Hr as [Hl Hr].
    rewrite Forall_forall in Hgood. by apply Hgood. }
  assert (map outcome (filter (fun r => label p r = stable) rs) <> []) as Hne.
  { apply Exists_exists in Hsome as (r & Hr & Hl). intros E.
    assert (outcome r ∈ map outcome (filter (fun r => label p r = stable) rs)) as Hin.
    { apply list_elem_of_fmap. exists r. split; [done |]. by apply list_elem_of_filter. }
    rewrite E in Hin. by apply not_elem_of_nil in Hin. }
  pose proof (summarize_error_rate_positive _ Hc) as Hpos.
  destruct (map outcome (filter (fun r => label p r = canary) rs)) as [|c cs];
    [by apply Exists_nil in Hc |].
  destruct (map outcome (filter (fun r => label p r = stable) rs)) as [|s ss]; [done |].
  destruct (summarize_all_successful (s :: ss)) as [Hs0 _]; [done | done |].
  rewrite (proj2 (gtb_lt _ _)); [done |]. rewrite Hs0. lra.
Qed.

(** * Runs with exceptions

    Every method with its exceptions does what the method without
    them does, until it raises: the trace of a run is the trace of the
    run in which every call completes, cut where the run raised. *)

Lemma extends_ret {A} (a : A) : extends (ret a).
Proof. intros w st. done. Qed.

Lemma extends_emit (e : Event) : extends (emit e).
Proof. intros w st. cbn. by apply prefix_app_r. Qed.

Lemma extends_bind {A B} (m : M A) (k : A -> M B) :
  extends m -> (forall a, extends (k a)) -> extends (bind m k).
Proof.
  intros Hm Hk w st. unfold bind. specialize (Hm w st).
  destruct (m w st) as [a st']. cbn in *. etrans; [exact Hm | apply Hk].
Qed.

Lemma extends_if {A} (b : bool) (m1 m2 : M A) :
  extends m1 -> extends m2 -> extends (if b then m1 else m2).
Proof. by destruct b. Qed.

Lemma extends_simulate_traffic (n : nat) : extends (simulate_traffic n).
Proof. intros w st. rewrite simulate_traffic_spec. cbn. by apply prefix_app_r. Qed.

Lemma extends_should_rollback (a : gmap string Summary) : extends (should_rollback a).
Proof. intros w st. rewrite should_rollback_spec. cbn. by apply prefix_app_r. Qed.

Lemma extends_set_metrics (m : gmap string (list Metric)) : extends (set_metrics m).
Proof. intros w st. done. Qed.

Lemma extends_set_canary_percentage (p : Z) : extends (set_canary_percentage p).
Proof. intros w st. done. Qed.

Lemma refines_ret {A} (a : A) : refines (Checked.ret a) (ret a).
Proof. intros w cst st H. by cbn. Qed.

Lemma refines_emit (e : Event) : refines (Checked.emit e) (emit e).
Proof.
  intros w cst st (Hp & Hm & Hs & Ht). cbn. split; [done |].
  unfold sim. cbn. by rewrite Ht.
Qed.

Lemma refines_bind {A B} (cm : Checked.M A) (m : M A) (ck : A -> Checked.M B) (k : A -> M B) :
  refines cm m -> extends m ->
  (forall a, refines (ck a) (k a)) -> (forall a, extends (k a)) ->
  refines (Checked.bind cm ck) (bind m k).
Proof.
  intros Hcm Hm Hck Hk w cst st Hsim.
  unfold Checked.bind, bind. specialize (Hcm w cst st Hsim). specialize (Hm (plain w) st).
  destruct (cm w cst) as [[a|] cst'], (m (plain w) st) as [a' st'] eqn:E; cbn in *.
  - destruct Hcm as [-> Hsim']. specialize (Hck a w cst' st' Hsim').
    destruct (ck a w cst') as [[b|] cst'']; [exact Hck |].
    destruct Hck as [H1 H2]. split; [| done]. by etrans.
  - destruct Hcm as [H1 H2]. split; [done |]. etrans; [exact H2 | apply Hk].
Qed.

Lemma guard_call (c : Checked.Call) : guard (Checked.call c).
Proof. intros w cst. unfold Checked.call. by destruct (Checked.completes w c). Qed.

Lemma guard_cursor (b : bool) (s : Checked.Site) : guard (Checked.cursor b s).
Proof.
  intros w cst. unfold Checked.cursor, Checked.bind, Checked.get, Checked.raise.
  cbn. destruct ((if b then Checked.canary_conn else Checked.stable_conn) cst); [| reflexivity].
  apply guard_call.
Qed.

Lemma refines_guard_l {A} (c : Checked.M unit) (cm : Checked.M A) (m : M A) :
  guard c -> refines cm m -> extends m -> refines (Checked.bind c (fun _ => cm)) m.
Proof.
  intros Hc Hcm Hm w cst st Hsim. unfold Checked.bind.
  specialize (Hc w cst). destruct (c w cst) as [[[]|] cst']; cbn in Hc; subst cst'.
  - by apply Hcm.
  - destruct Hsim as (_ & _ & _ & ->). split; [done | apply Hm].
Qed.

Lemma refines_guard_r (cm : Checked.M unit) (c : Checked.M unit) (m : M unit) :
  guard c -> refines cm m -> extends m -> refines (Checked.bind cm (fun _ => c)) m.
Proof.
  intros Hc Hcm Hm w cst st Hsim. unfold Checked.bind.
  specialize (Hcm w cst st Hsim).
  destruct (cm w cst) as [[[]|] cst']; [| done].
  specialize (Hc w cst'). destruct (c w cst') as [[[]|] cst'']; cbn in Hc; subst cst''.
  - destruct Hcm as [_ H]. split; [by destruct (m (plain w) st).1 | done].
  - destruct Hcm as [_ (_ & _ & _ & Ht)]. rewrite Ht. split; [apply Hm | done].
Qed.

Lemma refines_if {A} (b : bool) (c1 c2 : Checked.M A) (m1 m2 : M A) :
  refines c1 m1 -> refines c2 m2 ->
  refines (if b then c1 else c2) (if b then m1 else m2).
Proof. by destruct b. Qed.

Lemma refines_set_canary_percentage (p : Z) :
  refines (Checked.set_canary_percentage p) (set_canary_percentage p).
Proof. intros w cst st (Hp & Hm & Hs & Ht). cbn. by repeat split. Qed.

Lemma refines_set_metrics (m : gmap string (list Metric)) :
  refines (Checked.set_metrics m) (set_metrics m).
Proof. intros w cst st (Hp & Hm & Hs & Ht). cbn. by repeat split. Qed.

Lemma refines_route_traffic (p : Z) : refines (Checked.route_traffic p) (route_traffic p).
Proof.
  apply refines_bind; intros;
    auto using refines_set_canary_percentage, refines_emit,
      extends_set_canary_percentage, extends_emit.
Qed.

Lemma extends_route_traffic (p : Z) : extends (route_traffic p).
Proof.
  apply extends_bind; intros; auto using extends_set_canary_percentage, extends_emit.
Qed.

Lemma refines_setup : refines Checked.setup setup.
Proof.
  unfold Checked.setup, setup.
  repeat (apply refines_guard_l;
          [first [apply guard_cursor | apply guard_call] | | apply extends_emit]).
  apply refines_emit.
Qed.

Lemma refines_statement (b : bool) (s : Checked.Site) (e : Event) :
  refines
    (Checked.bind (Checked.cursor b s) (fun _ =>
     Checked.bind (Checked.call (Checked.Execute s)) (fun _ =>
     Checked.bind (Checked.emit e) (fun _ => Checked.call (Checked.Close s)))))
    (emit e).
Proof.
  repeat (apply refines_guard_l;
          [first [apply guard_cursor | apply guard_call] | | apply extends_emit]).
  apply refines_guard_r; [apply guard_call | apply refines_emit | apply extends_emit].
Qed.

Lemma refines_apply_canary_change : refines Checked.apply_canary_change apply_canary_change.
Proof. apply refines_statement. Qed.

Lemma refines_rollback_canary : refines Checked.rollback_canary rollback_canary.
Proof. apply refines_statement. Qed.

Lemma refines_promote_stable : refines Checked.promote_stable promote_stable.
Proof. apply refines_statement. Qed.

Lemma refines_print_metrics (a : gmap string Summary) (phase : string) :
  refines (Checked.print_metrics a phase) (print_metrics a phase).
Proof. apply refines_emit. Qed.

Lemma refines_sleep : refines Checked.sleep sleep.
Proof. apply refines_emit. Qed.

Lemma refines_analyze_metrics : refines Checked.analyze_metrics analyze_metrics.
Proof.
  intros w cst st Hsim. pose proof Hsim as (Hp & Hm & Hs & Ht).
  unfold Checked.analyze_metrics, Checked.bind, Checked.get, Checked.ret, Checked.raise.
  cbn. destruct (Checked.metrics cst !! stable), (Checked.metrics cst !! canary);
    cbn; rewrite ?Hm, ?Ht; done.
Qed.

Lemma checked_emit_warnings_spec (b : bool) (ws : list Warning)
    (w : Checked.World) (st : Checked.State) :
  fold_right (fun x k => Checked.bind (Checked.emit (Warned x)) (fun _ => k))
    (Checked.ret b) ws w st =
  (Checked.Returned b,
   {| Checked.stable_conn := Checked.stable_conn st;
      Checked.canary_conn := Checked.canary_conn st;
      Checked.canary_percentage := Checked.canary_percentage st;
      Checked.metrics := Checked.metrics st; Checked.served := Checked.served st;
      Checked.trace := Checked.trace st ++ map Warned ws |}).
Proof.
  revert st. induction ws as [|x ws IH]; intros st; cbn [fold_right map].
  - unfold Checked.ret. rewrite app_nil_r. by destruct st.
  - unfold Checked.bind at 1. unfold Checked.emit at 1. rewrite IH. cbn.
    by rewrite <- app_assoc.
Qed.

Lemma refines_should_rollback (a : gmap string Summary) :
  refines (Checked.should_rollback a) (should_rollback a).
Proof.
  intros w cst st (Hp & Hm & Hs & Ht).
  rewrite should_rollback_spec. unfold Checked.should_rollback.
  destruct (rollback_decision a) as [b ws]. rewrite checked_emit_warnings_spec.
  cbn. split; [done |]. unfold sim. cbn. by rewrite Ht.
Qed.

Lemma refines_simulate_one : refines Checked.simulate_one simulate_one.
Proof.
  intros w [sc cc p m s t] [c' p' m' s' t'] (Hp & Hm & Hs & Ht).
  cbn in Hp, Hm, Hs, Ht. subst p' m' s' t'.
  rewrite simulate_one_spec.
  cbv beta iota zeta delta
    [Checked.simulate_one Checked.bind Checked.next_request Checked.get
     Checked.execute_query Checked.cursor Checked.call Checked.emit Checked.ret
     Checked.raise Checked.append_metric Checked.set_metrics
     Checked.stable_conn Checked.canary_conn Checked.canary_percentage
     Checked.metrics Checked.served Checked.trace
     canary_percentage metrics served trace connected plain request fst snd].
  set (r := Checked.incoming w s).
  assert (Hext : t `prefix_of` t ++ [queried p r]) by (by apply prefix_app_r).
  assert (Hq : forall b, b = (draw r <=? p) ->
            Queried b (answered r) (millis r) = queried p r) by (by intros b ->).
  assert (Hw : forall b, b = (draw r <=? p) -> forall l,
            m !! (if b then canary else stable) = Some l ->
            <[(if b then canary else stable) := l ++ [metric (answered r) (millis r)]]> m
            = window p m [r]).
  { intros b -> l El. unfold window, label, outcome, metric. cbn [foldl].
    apply map_eq. intros env. rewrite lookup_alter.
    destruct (decide ((if draw r <=? p then canary else stable) = env)) as [<- | Hne].
    - by rewrite lookup_insert_eq, El.
    - by rewrite lookup_insert_ne. }
  destruct (draw r <=? p) eqn:Eb.
  all: match goal with
       | |- context [if ?c then _ else _] => destruct c
       end; [| done].
  all: destruct (Checked.completes w (Checked.Cursor _)); [| done].
  all: rewrite (Hq _ eq_refl).
  all: destruct (answered r) eqn:Ha.
  all: try (destruct (Checked.completes w (Checked.Handler _)); [| done]).
  all: destruct (Checked.completes w (Checked.Close _)); [| done].
  all: match goal with
       | |- context [?mm !! ?k] => destruct (mm !! k) as [l|] eqn:El
       end; [| done].
  all: split; [done |]; unfold sim; cbn; repeat split.
  all: first [exact (Hw true eq_refl l El) | exact (Hw false eq_refl l El)].
Qed.

Lemma refines_simulate_traffic (n : nat) :
  refines (Checked.simulate_traffic n) (simulate_traffic n).
Proof.
  induction n as [|n IH]; cbn [Checked.simulate_traffic simulate_traffic].
  - apply refines_ret.
  - apply refines_bind; auto using refines_simulate_one.
    + apply (extends_simulate_traffic 1).
    + intros _. apply extends_simulate_traffic.
Qed.

Lemma extends_analyze_metrics : extends analyze_metrics.
Proof. intros w st. done. Qed.

Ltac extends_step :=
  lazymatch goal with
  | |- extends (bind _ _) => apply extends_bind; [| intros ?]
  | |- extends (if _ then _ else _) => apply extends_if
  | |- extends (ret _) => exact (extends_ret _)
  | |- extends (emit _) => exact (extends_emit _)
  | |- extends setup => exact (extends_emit _)
  | |- extends apply_canary_change => exact (extends_emit _)
  | |- extends rollback_canary => exact (extends_emit _)
  | |- extends promote_stable => exact (extends_emit _)
  | |- extends sleep => exact (extends_emit _)
  | |- extends (print_metrics _ _) => exact (extends_emit _)
  | |- extends (route_traffic _) => exact (extends_route_traffic _)
  | |- extends (simulate_traffic _) => exact (extends_simulate_traffic _)
  | |- extends analyze_metrics => exact extends_analyze_metrics
  | |- extends (should_rollback _) => exact (extends_should_rollback _)
  | |- extends (set_metrics _) => exact (extends_set_metrics _)
  end.

Ltac refines_step :=
  lazymatch goal with
  | |- refines (Checked.bind _ _) (bind _ _) =>
      apply refines_bind; [| repeat extends_step | intros ? | intros ?; repeat extends_step]
  | |- refines (if _ then _ else _) _ => apply refines_if
  | |- refines (Checked.ret _) _ => exact (refines_ret _)
  | |- refines Checked.setup _ => exact refines_setup
  | |- refines Checked.apply_canary_change _ => exact refines_apply_canary_change
  | |- refines Checked.rollback_canary _ => exact refines_rollback_canary
  | |- refines Checked.promote_stable _ => exact refines_promote_stable
  | |- refines Checked.sleep _ => exact refines_sleep
  | |- refines (Checked.print_metrics _ _) _ => exact (refines_print_metrics _ _)
  | |- refines (Checked.route_traffic _) _ => exact (refines_route_traffic _)
  | |- refines (Checked.simulate_traffic _) _ => exact (refines_simulate_traffic _)
  | |- refines Checked.analyze_metrics _ => exact refines_analyze_metrics
  | |- refines (Checked.should_rollback _) _ => exact (refines_should_rollback _)
  | |- refines (Checked.set_metrics _) _ => exact (refines_set_metrics _)
  end.

Lemma refines_connect_all : refines Checked.connect_all connect_all.
Proof.
  intros w [sc cc p m s t] [c' p' m' s' t'] (Hp & Hm & Hs & Ht).
  cbn in Hp, Hm, Hs, Ht. subst p' m' s' t'.
  unfold Checked.connect_all, connect_all. cbn [plain reachable].
  destruct (Checked.stable_up w) eqn:Es, (Checked.canary_up w) eqn:Ec;
    cbn; rewrite ?Ec; cbn; by repeat split.
Qed.

Lemma extends_connect_all : extends connect_all.
Proof.
  intros w st. unfold connect_all.
  destruct (reachable w); cbn; by apply prefix_app_r.
Qed.

(** The whole of [run_canary_deployment]. *)
Lemma refines_run_canary_deployment :
  refines Checked.run_canary_deployment run_canary_deployment.
Proof.
  unfold Checked.run_canary_deployment, run_canary_deployment.
  apply refines_bind; [exact refines_connect_all | exact extends_connect_all | |].
  - intros ok. repeat refines_step.
  - intros ok. repeat extends_step.
Qed.

Lemma prefix_snoc_cases {A} (t b : list A) (e : A) :
  t `prefix_of` b ++ [e] -> t `prefix_of` b \/ t = b ++ [e].
Proof.
  intros [k Hk]. destruct k as [|x k _] using rev_ind.
  - right. by rewrite app_nil_r in Hk.
  - left. rewrite app_assoc in Hk. apply app_inj_tail in Hk as [-> _].
    by apply prefix_app_r.
Qed.

Lemma rollbacks_prefix (t T : list Event) :
  t `prefix_of` T -> (rollbacks t <= rollbacks T)%nat.
Proof. intros [k ->]. rewrite rollbacks_app. lia. Qed.

Lemma promoted_prefix (t T : list Event) :
  t `prefix_of` T -> promoted T = false -> promoted t = false.
Proof. intros [k ->]. rewrite promoted_app. by intros [? _]%orb_false_iff. Qed.

(** How a run without exceptions that connects ends. *)
Lemma run_final_action (w : World) :
  reachable w = true ->
  exists before final,
    trace (run w) = before ++ [final] /\
    (final = CanaryRolledBack \/ final = StablePromoted) /\
    rollbacks before = 0%nat /\ promoted before = false.
Proof.
  intros H.
  destruct (run_shape w)
    as (t0 & t1 & t2 & (_ & _ & _ & Hb0 & Hp0 & _) & (_ & _ & _ & Hb1 & Hp1 & _)
        & (_ & _ & _ & Hb2 & Hp2 & _) & ->).
  rewrite H.
  destruct (rolls_back w 0 10); [| destruct (rolls_back w 1 50)].
  - exists ([Connected true; SetupDone; CanaryChangeApplied] ++ t0), CanaryRolledBack.
    split; [by rewrite <- app_assoc |]. split; [by left |].
    count_before.
  - exists ([Connected true; SetupDone; CanaryChangeApplied] ++ t0 ++ Slept :: t1),
      CanaryRolledBack.
    split; [by rewrite <- !app_assoc |]. split; [by left |].
    count_before.
  - exists ([Connected true; SetupDone; CanaryChangeApplied] ++ t0
            ++ Slept :: t1 ++ Slept :: t2), StablePromoted.
    split; [by rewrite <- !app_assoc; cbn [app]; rewrite <- !app_assoc |].
    split; [by right |].
    count_before.
Qed.

(** A run that does not connect. *)
Lemma checked_run_unconnected (w : Checked.World) :
  Checked.stable_up w && Checked.canary_up w = false ->
  Checked.run w =
  (Checked.Returned tt,
   {| Checked.stable_conn := Checked.stable_up w; Checked.canary_conn := false;
      Checked.canary_percentage := 0; Checked.metrics := empty_metrics;
      Checked.served := 0; Checked.trace := [Connected false] |}).
Proof.
  intros H. unfold Checked.run, Checked.run_canary_deployment.
  unfold Checked.bind at 1. unfold Checked.connect_all.
  destruct (Checked.stable_up w); [| reflexivity].
  cbn in H. unfold Checked.bind at 1.
  cbn [Checked.set_stable_conn]. rewrite H. reflexivity.
Qed.

(** The trace of any run is the trace of the run without exceptions, or
    a part of it when the run raised. *)
Lemma checked_run_trace (w : Checked.World) :
  Checked.trace (Checked.run w).2 `prefix_of` trace (run (plain w)) /\
  ((Checked.run w).1 = Checked.Returned tt ->
   Checked.trace (Checked.run w).2 = trace (run (plain w))).
Proof.
  assert (sim Checked.init init) as Hsim by done.
  pose proof (refines_run_canary_deployment w Checked.init init Hsim) as H.
  unfold Checked.run, run.
  destruct (Checked.run_canary_deployment w Checked.init) as [[[]|] cst]; cbn.
  - destruct H as (_ & _ & _ & _ & ->). done.
  - split; [apply H | discriminate].
Qed.

(** A run that promoted did not raise before: its trace is that of the
    run without exceptions. *)
Lemma checked_run_promoted (w : Checked.World) :
  promoted (Checked.trace (Checked.run w).2) = true ->
  Checked.trace (Checked.run w).2 = trace (run (plain w)) /\
  reachable (plain w) = true.
Proof.
  intros Hp. destruct (checked_run_trace w) as [Hpre _].
  destruct (reachable (plain w)) eqn:Hr.
  - split; [| done].
    destruct (run_final_action (plain w) Hr) as (before & final & Ht & _ & _ & Hnp).
    rewrite Ht in *. apply prefix_snoc_cases in Hpre as [Hpre | ->]; [| done].
    rewrite (promoted_prefix _ _ Hpre Hnp) in Hp. discriminate Hp.
  - rewrite run_trace, Hr in Hpre.
    rewrite (promoted_prefix _ _ Hpre) in Hp; [discriminate Hp | done].
Qed.




Lemma sim_plain_state (st : Checked.State) : sim st (plain_state st).
Proof. done. Qed.

Ltac checked_methods :=
  cbv beta iota zeta delta
    [Checked.simulate_one Checked.bind Checked.next_request Checked.get
     Checked.execute_query Checked.cursor Checked.call Checked.emit Checked.ret
     Checked.raise Checked.append_metric Checked.set_metrics
     Checked.stable_conn Checked.canary_conn Checked.canary_percentage
     Checked.metrics Checked.served Checked.trace fst snd].

(** One turn of the traffic loop leaves the connections and the split
    as they are. *)
Lemma checked_simulate_one_frame (w : Checked.World) (st : Checked.State) :
  let st' := (Checked.simulate_one w st).2 in
  Checked.stable_conn st' = Checked.stable_conn st /\
  Checked.canary_conn st' = Checked.canary_conn st /\
  Checked.canary_percentage st' = Checked.canary_percentage st.
Proof.
  destruct st as [sc cc p m s t]. checked_methods.
  repeat match goal with
         | |- context [if ?c then _ else _] => destruct c
         | |- context [?mm !! ?k] => destruct (mm !! k)
         end; done.
Qed.

Lemma checked_simulate_traffic_frame (n : nat) (w : Checked.World) (st : Checked.State) :
  let st' := (Checked.simulate_traffic n w st).2 in
  Checked.stable_conn st' = Checked.stable_conn st /\
  Checked.canary_conn st' = Checked.canary_conn st /\
  Checked.canary_percentage st' = Checked.canary_percentage st.
Proof.
  revert st. induction n as [|n IH]; intros st; [done |].
  cbn [Checked.simulate_traffic]. unfold Checked.bind.
  pose proof (checked_simulate_one_frame w st) as H1.
  destruct (Checked.simulate_one w st) as [[[]|] st1]; cbn in H1; [| done].
  specialize (IH st1). cbn in IH.
  destruct IH as (-> & -> & ->). done.
Qed.

(** On a controller that is not connected the first turn raises. *)
Lemma checked_simulate_traffic_unconnected (n : nat) (w : Checked.World) (st : Checked.State) :
  Checked.stable_conn st = false -> Checked.canary_conn st = false ->
  (Checked.simulate_traffic (S n) w st).1 = Checked.Raised /\
  Checked.trace (Checked.simulate_traffic (S n) w st).2 = Checked.trace st.
Proof.
  destruct st as [sc cc p m s t]. cbn. intros -> ->.
  cbn [Checked.simulate_traffic]. unfold Checked.bind.
  assert (Checked.simulate_one w
            {| Checked.stable_conn := false; Checked.canary_conn := false;
               Checked.canary_percentage := p; Checked.metrics := m;
               Checked.served := s; Checked.trace := t |}
          = (Checked.Raised,
             {| Checked.stable_conn := false; Checked.canary_conn := false;
                Checked.canary_percentage := p; Checked.metrics := m;
                Checked.served := S s; Checked.trace := t |})) as ->.
  { checked_methods. by destruct (draw (Checked.incoming w s) <=? p). }
  done.
Qed.

Lemma forallb_is_query_prefix (new : list Event) (p : Z) (rs : list Request) :
  new `prefix_of` map (queried p) rs -> forallb is_query new = true.
Proof.
  intros [k Hk]. pose proof (forallb_queried p rs) as H.
  rewrite Hk, forallb_app in H. by apply andb_true_iff in H as [? _].
Qed.

(** X12.  The traffic loop only appends: whether it returns or raises,
    it adds to the trace only queries, at most one per request, and
    leaves the split and the connections as they are.  When it returns
    it has executed one query per request and added the outcome of
    every query executed on the canary to the canary list and of every
    other query to the stable list, in order, keeping what the lists
    held and touching no other key.  On a controller that is not
    connected it raises before the first query. *)
Theorem simulate_traffic_only_appends (w : Checked.World) (st : Checked.State) (n : nat) :
  let o := (Checked.simulate_traffic n w st).1 in
  let st' := (Checked.simulate_traffic n w st).2 in
  exists new : list Event,
    Checked.trace st' = Checked.trace st ++ new /\
    (length new <= n)%nat /\ forallb is_query new = true /\
    Checked.canary_percentage st' = Checked.canary_percentage st /\
    Checked.stable_conn st' = Checked.stable_conn st /\
    Checked.canary_conn st' = Checked.canary_conn st /\
    (o = Checked.Returned tt ->
       length new = n /\
       Checked.metrics st' !! canary
         = (fun l => l ++ executed true new) <$> (Checked.metrics st !! canary) /\
       Checked.metrics st' !! stable
         = (fun l => l ++ executed false new) <$> (Checked.metrics st !! stable) /\
       (forall env, env <> stable -> env <> canary ->
          Checked.metrics st' !! env = Checked.metrics st !! env) /\
       Checked.served st' = (Checked.served st + n)%nat) /\
    (Checked.stable_conn st = false -> Checked.canary_conn st = false -> (0 < n)%nat ->
       o = Checked.Raised /\ new = []).
Proof.
  intros o st'. subst o st'.
  pose proof (refines_simulate_traffic n w st (plain_state st) (sim_plain_state st)) as Href.
  pose proof (checked_simulate_traffic_frame n w st) as (Hsc & Hcc & Hp).
  assert (Checked.stable_conn st = false -> Checked.canary_conn st = false -> (0 < n)%nat ->
          (Checked.simulate_traffic n w st).1 = Checked.Raised /\
          Checked.trace (Checked.simulate_traffic n w st).2 = Checked.trace st) as Hun.
  { intros Hs0 Hc0 Hn. destruct n as [|n]; [lia |].
    by apply checked_simulate_traffic_unconnected. }
  rewrite simulate_traffic_spec in Href.
  cbn [fst snd plain_state plain request connected canary_percentage metrics served trace]
    in Href.
  set (p := Checked.canary_percentage st) in *.
  set (rs := requests (plain w) (Checked.served st) n) in *.
  assert (length rs = n) as Hlen.
  { unfold rs, requests. by rewrite length_map, length_seq. }
  destruct (Checked.simulate_traffic n w st) as [[[]|] st'] eqn:E;
    cbn [fst snd] in *.
  - destruct Href as (_ & _ & Hm & Hs & Ht). cbn in Hm, Hs, Ht.
    destruct (executed_queried p rs) as [Hc Hst].
    exists (map (queried p) rs).
    split; [done |]. split; [rewrite length_map; lia |].
    split; [apply forallb_queried |].
    split; [done |]. split; [done |]. split; [done |]. split.
    + intros _. split; [by rewrite length_map |].
      rewrite Hm. split; [by rewrite window_lookup, Hc |].
      split; [by rewrite window_lookup, Hst |]. split; [| done].
      intros env Hes Hec. rewrite window_lookup, other_keys_unlabelled by done.
      destruct (Checked.metrics st !! env) as [l|]; cbn; [| done]. by rewrite app_nil_r.
    + intros Hs0 Hc0 Hn. destruct (Hun Hs0 Hc0 Hn) as [Hr _]. discriminate Hr.
  - destruct Href as [[new Hnew] Hpre].
    exists new. split; [done |].
    rewrite Hnew in Hpre. apply prefix_app_inv in Hpre.
    split.
    { apply prefix_length in Hpre. rewrite length_map in Hpre. lia. }
    split; [by apply (forallb_is_query_prefix new p rs) |].
    split; [done |]. split; [done |]. split; [done |]. split; [discriminate |].
    intros Hs0 Hc0 Hn. split; [done |].
    destruct (Hun Hs0 Hc0 Hn) as [_ Ht].
    rewrite Hnew in Ht. rewrite <- (app_nil_r (Checked.trace st)) in Ht at 2.
    by apply app_inv_head in Ht.
Qed.

Lemma queries_prefix (t T : list Event) :
  t `prefix_of` T -> (queries t <= queries T)%nat.
Proof. intros [k ->]. rewrite queries_app. lia. Qed.

Lemma reports_prefix (t T : list Event) :
  t `prefix_of` T -> (reports t <= reports T)%nat.
Proof. intros [k ->]. rewrite reports_app. lia. Qed.

Lemma changes_prefix (t T : list Event) :
  t `prefix_of` T -> (changes t <= changes T)%nat.
Proof. intros [k ->]. rewrite changes_app. lia. Qed.

Lemma routed_prefix (t T : list Event) :
  t `prefix_of` T -> routed t `prefix_of` routed T.
Proof. intros [k ->]. rewrite routed_app. by apply prefix_app_r. Qed.

Lemma stages_run_le (w : World) : (stages_run w <= 3)%nat.
Proof.
  unfold stages_run.
  destruct (reachable w), (rolls_back w 0 10), (rolls_back w 1 50); lia.
Qed.

(** X14.  When one of the two databases cannot be reached the run
    returns at once: nothing is set up, changed, routed, queried,
    rolled back or promoted, the split and the window are as the
    controller was created, and the stable connection is left set
    exactly when it was the canary that could not be reached. *)
Theorem unreachable_run_does_nothing (w : Checked.World) :
  Checked.stable_up w && Checked.canary_up w = false ->
  (Checked.run w).1 = Checked.Returned tt /\
  Checked.trace (Checked.run w).2 = [Connected false] /\
  Checked.stable_conn (Checked.run w).2 = Checked.stable_up w /\
  Checked.canary_conn (Checked.run w).2 = false /\
  Checked.canary_percentage (Checked.run w).2 = 0 /\
  Checked.metrics (Checked.run w).2 = empty_metrics /\
  Checked.served (Checked.run w).2 = 0%nat.
Proof.
  intros H. rewrite (checked_run_unconnected w H). by repeat split.
Qed.

(** X15.  A run performs at most one of the two final actions, the
    rollback of the canary or the promotion to stable, and nothing
    after it; a run that ends with neither did not connect or
    raised. *)
Theorem run_ends_in_rollback_or_promotion (w : Checked.World) :
  let o := (Checked.run w).1 in
  let t := Checked.trace (Checked.run w).2 in
  exists before,
    rollbacks before = 0%nat /\ promoted before = false /\
    (t = before ++ [CanaryRolledBack] \/ t = before ++ [StablePromoted] \/
     (t = before /\
      (o = Checked.Returned tt -> Checked.stable_up w && Checked.canary_up w = false))).
Proof.
  intros o t. subst o t.
  destruct (checked_run_trace w) as [Hpre Hret].
  destruct (Checked.stable_up w && Checked.canary_up w) eqn:Hr.
  - destruct (run_final_action (plain w) Hr) as (before & final & Ht & Hf & Hnr & Hnp).
    rewrite Ht in *. apply prefix_snoc_cases in Hpre as [Hpre | Heq].
    + exists (Checked.trace (Checked.run w).2).
      split; [pose proof (rollbacks_prefix _ _ Hpre); lia |].
      split; [by apply (promoted_prefix _ _ Hpre) |].
      right. right. split; [done |]. intros Ho. apply Hret in Ho.
      rewrite Ho in Hpre. by apply prefix_snoc_not in Hpre.
    + exists before. split; [done |]. split; [done |].
      destruct Hf as [-> | ->]; auto.
  - exists [Connected false]. split; [done |]. split; [done |].
    right. right. by rewrite (checked_run_unconnected w Hr).
Qed.

(** X16.  A run reports at most three stages, executes at most 600
    queries and routes the splits in the order 10, 50, 100, each at
    most once; a run that promoted went through all three stages; a
    run that returns has executed exactly 200 queries for every stage
    it reported and promoted exactly when it reported three. *)
Theorem stages_run_in_order (w : Checked.World) :
  let o := (Checked.run w).1 in
  let t := Checked.trace (Checked.run w).2 in
  (reports t <= 3)%nat /\ (queries t <= 600)%nat /\
  routed t `prefix_of` [10; 50; 100] /\
  (promoted t = true ->
     reports t = 3%nat /\ queries t = 600%nat /\ routed t = [10; 50; 100]) /\
  (o = Checked.Returned tt ->
     queries t = (200 * reports t)%nat /\
     routed t = take (reports t) [10; 50; 100] /\
     (promoted t = true <-> reports t = 3%nat)).
Proof.
  intros o t. subst o t.
  destruct (checked_run_trace w) as [Hpre Hret].
  pose proof (stages_run_le (plain w)) as Hle.
  split; [| split; [| split; [| split]]].
  - apply reports_prefix in Hpre. rewrite run_reports in Hpre. lia.
  - apply queries_prefix in Hpre. rewrite run_queries in Hpre. lia.
  - apply routed_prefix in Hpre. rewrite run_routed in Hpre.
    etrans; [exact Hpre | apply prefix_take].
  - intros Hp. destruct (checked_run_promoted w Hp) as [Ht _]. rewrite Ht in *.
    rewrite run_promoted_stages in Hp. apply Nat.eqb_eq in Hp.
    by rewrite run_reports, run_queries, run_routed, Hp.
  - intros Ho. rewrite (Hret Ho).
    rewrite run_queries, run_reports, run_routed, run_promoted_stages.
    split; [done |]. split; [done |]. apply Nat.eqb_eq.
Qed.

Lemma prefix_app_cases {A} (t l1 l2 : list A) :
  t `prefix_of` l1 ++ l2 ->
  (t `prefix_of` l1 /\ t <> l1) \/ exists t', t = l1 ++ t' /\ t' `prefix_of` l2.
Proof.
  revert t. induction l1 as [|x l1 IH]; intros t Ht.
  - right. by exists t.
  - destruct t as [|y t].
    + left. split; [apply prefix_nil | done].
    + cbn [app] in Ht. pose proof (prefix_cons_inv_1 _ _ _ _ Ht) as ->.
      apply prefix_cons_inv_2 in Ht.
      destruct (IH t Ht) as [[Hp Hne] | (t' & -> & Ht')].
      * left. split; [by apply prefix_cons | congruence].
      * right. by exists t'.
Qed.

(** X17.  The change is applied to the canary at most once, and a run
    that routes or queries anything has connected, set up and applied
    the change, in this order, before. *)
Theorem change_is_applied_once_before_traffic (w : Checked.World) :
  let t := Checked.trace (Checked.run w).2 in
  (changes t <= 1)%nat /\
  (routed t <> [] \/ (0 < queries t)%nat ->
   changes t = 1%nat /\
   exists rest, t = [Connected true; SetupDone; CanaryChangeApplied; Routed 10] ++ rest).
Proof.
  intros t. subst t.
  destruct (checked_run_trace w) as [Hpre _].
  assert (changes (trace (run (plain w))) <= 1)%nat as Hone.
  { count_run (plain w); cbn; lia. }
  pose proof (changes_prefix _ _ Hpre) as Hle.
  split; [lia |].
  intros Hsome. rewrite run_trace in Hpre.
  assert (forall t0 T0 : list Event,
            t0 `prefix_of` T0 -> routed T0 = [] -> queries T0 = 0%nat ->
            routed t0 = [] /\ queries t0 = 0%nat) as Hshort.
  { intros t0 T0 Ht0 Hr Hq.
    pose proof (routed_prefix _ _ Ht0) as H1. pose proof (queries_prefix _ _ Ht0) as H2.
    rewrite Hr in H1. apply prefix_nil_inv in H1. split; [done | lia]. }
  assert (forall t0 : list Event, routed t0 = [] /\ queries t0 = 0%nat ->
            routed t0 <> [] \/ (0 < queries t0)%nat -> False) as Hno.
  { intros t0 [Hr Hq] [H | H]; [by apply H | lia]. }
  destruct (reachable (plain w)).
  - apply prefix_app_cases in Hpre as [[Hp _] | (rest & Ht & Hrest)].
    + exfalso. by apply (Hno _ (Hshort _ _ Hp eq_refl eq_refl)).
    + unfold stage_trace at 1 in Hrest. cbn [app] in Hrest.
      destruct rest as [|e rest].
      * exfalso. rewrite app_nil_r in Ht. rewrite Ht in Hsome.
        by apply (Hno [Connected true; SetupDone; CanaryChangeApplied]).
      * pose proof (prefix_cons_inv_1 _ _ _ _ Hrest) as ->.
        split; [| by exists rest].
        rewrite Ht in *. rewrite changes_app in *.
        change (changes [Connected true; SetupDone; CanaryChangeApplied]) with 1%nat in *.
        lia.
  - exfalso. by apply (Hno _ (Hshort _ _ Hpre eq_refl eq_refl)).
Qed.



(** X18.  Once the 100% split is routed the canary is not rolled back,
    whatever the requests of that stage return; if the run returns it
    has promoted after 600 queries. *)
Theorem full_rollout_is_never_rolled_back (w : Checked.World) :
  let o := (Checked.run w).1 in
  let t := Checked.trace (Checked.run w).2 in
  In 100 (routed t) ->
  rollbacks t = 0%nat /\
  (o = Checked.Returned tt -> promoted t = true /\ queries t = 600%nat).
Proof.
  intros o t. subst o t. intros Hin.
  destruct (checked_run_trace w) as [Hpre Hret].
  assert (stages_run (plain w) = 3%nat) as H3.
  { pose proof (routed_prefix _ _ Hpre) as [k Hk]. rewrite run_routed in Hk.
    assert (In 100 (take (stages_run (plain w)) [10; 50; 100])) as Hin'.
    { rewrite Hk. apply in_or_app. by left. }
    pose proof (stages_run_le (plain w)).
    destruct (stages_run (plain w)) as [|[|[|[|n]]]]; cbn in Hin'; try lia;
      repeat destruct Hin' as [Hin' | Hin']; done. }
  split.
  - pose proof (rollbacks_prefix _ _ Hpre) as Hle.
    rewrite run_rollbacks_stages, H3, andb_false_r in Hle. lia.
  - intros Ho. rewrite (Hret Ho).
    by rewrite run_promoted_stages, run_queries, H3.
Qed.

(** X19.  A run in whose first 400 requests every query succeeds with a
    latency inside a band [lo .. hi] with [hi <= 1.5 * lo] is never
    rolled back, however the requests are routed; if it connects and
    returns it has promoted after 600 queries. *)
Theorem healthy_canary_is_promoted (w : Checked.World) (lo hi : Q) :
  let o := (Checked.run w).1 in
  let t := Checked.trace (Checked.run w).2 in
  (hi <= lo * 1.5)%Q ->
  (forall i, (i < 400)%nat ->
     answered (Checked.incoming w i) = true /\
     (lo <= millis (Checked.incoming w i) <= hi)%Q) ->
  rollbacks t = 0%nat /\
  (o = Checked.Returned tt -> Checked.stable_up w && Checked.canary_up w = true ->
   promoted t = true /\ queries t = 600%nat).
Proof.
  intros o t. subst o t. intros Hband Hall.
  destruct (checked_run_trace w) as [Hpre Hret].
  assert (forall k p, (k < 2)%nat -> rolls_back (plain w) k p = false) as Hpass.
  { intros k p Hk. unfold rolls_back, stage_analysis.
    rewrite (healthy_window_passes p lo hi); [done | done |].
    apply Forall_forall. intros r Hin.
    apply stage_requests_elem in Hin as (i & Hi & ->). apply Hall. lia. }
  split.
  - pose proof (rollbacks_prefix _ _ Hpre) as Hle.
    rewrite run_rollbacks, !Hpass, andb_false_r in Hle by lia. lia.
  - intros Ho Hup. rewrite (Hret Ho).
    rewrite run_promoted, run_queries. unfold stages_run. cbn [plain reachable].
    by rewrite Hup, !Hpass by lia.
Qed.

(** X20.  When at the 10% stage every query on stable succeeds and at
    least one query on the canary fails, the run never promotes and
    never goes beyond the 10% stage; if it connects and returns it has
    rolled the canary back after 200 queries and an error rate
    warning. *)
Theorem failing_canary_is_rolled_back_at_first_stage (w : Checked.World) (i j : nat) :
  let o := (Checked.run w).1 in
  let t := Checked.trace (Checked.run w).2 in
  (i < 200)%nat -> draw (Checked.incoming w i) <= 10 ->
  answered (Checked.incoming w i) = false ->
  (j < 200)%nat -> 10 < draw (Checked.incoming w j) ->
  (forall n, (n < 200)%nat -> 10 < draw (Checked.incoming w n) ->
     answered (Checked.incoming w n) = true) ->
  promoted t = false /\ (queries t <= 200)%nat /\ routed t `prefix_of` [10] /\
  (o = Checked.Returned tt -> Checked.stable_up w && Checked.canary_up w = true ->
   rollbacks t = 1%nat /\ queries t = 200%nat /\
   exists before, t = before ++ [Warned ErrorRateSpike; CanaryRolledBack]).
Proof.
  intros o t. subst o t. intros Hi Hdi Hai Hj Hdj Hgood.
  destruct (checked_run_trace w) as [Hpre Hret].
  assert (rollback_decision (stage_analysis (plain w) 0 10) = (true, [ErrorRateSpike]))
    as Hdec.
  { apply failing_canary_window_rolls_back.
    - apply Exists_exists. exists (request (plain w) i).
      split; [apply elem_stage_requests; lia |].
      split; [| done]. unfold label. cbn [plain request].
      by rewrite (proj2 (Z.leb_le _ _) Hdi).
    - apply Exists_exists. exists (request (plain w) j).
      split; [apply elem_stage_requests; lia |]. unfold label. cbn [plain request].
      by rewrite (proj2 (Z.leb_gt _ _) Hdj).
    - apply Forall_forall. intros r Hin Hl.
      apply stage_requests_elem in Hin as (n & Hn & ->). apply Hgood; [lia |].
      unfold label in Hl. cbn [plain request] in Hl.
      destruct (draw (Checked.incoming w n) <=? 10) eqn:E; [done |].
      by apply Z.leb_gt. }
  assert (rolls_back (plain w) 0 10 = true) as Hrb by (unfold rolls_back; by rewrite Hdec).
  assert (stages_run (plain w) <= 1)%nat as Hone.
  { unfold stages_run. rewrite Hrb. destruct (reachable (plain w)); lia. }
  split; [| split; [| split]].
  - apply (promoted_prefix _ _ Hpre).
    by rewrite run_promoted, Hrb, andb_false_r.
  - apply queries_prefix in Hpre. rewrite run_queries in Hpre. lia.
  - apply routed_prefix in Hpre. rewrite run_routed in Hpre.
    etrans; [exact Hpre |].
    destruct (stages_run (plain w)) as [|[|n]]; [apply prefix_nil | done | lia].
  - intros Ho Hup. rewrite (Hret Ho).
    rewrite run_rollbacks, run_queries, run_trace. unfold stages_run.
    cbn [plain reachable]. rewrite Hup, Hrb.
    split; [done |]. split; [done |].
    exists ([Connected true; SetupDone; CanaryChangeApplied; Routed 10]
            ++ map (queried 10) (stage_requests (plain w) 0)
            ++ [MetricsPrinted (stage_analysis (plain w) 0 10) "10% Traffic"]).
    unfold stage_trace. rewrite Hdec. cbn [snd map].
    repeat (rewrite <- ?app_assoc; cbn [app]; f_equal).
Qed.

(** X21.  Whatever the two databases held before, the index exists in
    both after a run that promoted; after a run that connected and
    returned without promoting it is absent from the canary and stable
    is as it was; a run that cannot connect changes neither. *)
Theorem index_after_run (w : Checked.World) (s : Schema) :
  let o := (Checked.run w).1 in
  let t := Checked.trace (Checked.run w).2 in
  (promoted t = true ->
   schema_after t s = {| canary_index := true; stable_index := true |}) /\
  (o = Checked.Returned tt ->
   schema_after t s =
   if Checked.stable_up w && Checked.canary_up w then
     if promoted t
     then {| canary_index := true; stable_index := true |}
     else {| canary_index := false; stable_index := stable_index s |}
   else s).
Proof.
  intros o t. subst o t.
  destruct (checked_run_trace w) as [_ Hret]. split.
  - intros Hp. destruct (checked_run_promoted w Hp) as [Ht Hr]. rewrite Ht in *.
    by rewrite plain_run_index, Hr, Hp.
  - intros Ho. rewrite (Hret Ho). apply plain_run_index.
Qed.

(** * Concrete runs, continued *)

Lemma zero_split_sends_nothing_to_canary_witness :
  let st' := (simulate_traffic 200 steady_world init).2 in
  metrics st' !!! canary = [] /\
  (should_rollback (analyze_metrics steady_world st').1 steady_world st').1 = false.
Proof.
  intros st'.
  destruct (zero_split_sends_nothing_to_canary steady_world init 200)
    as (Hc & _ & _ & Ha).
  - apply cycling_world_in_range.
  - cbn. lia.
  - reflexivity.
  - split; [exact Hc | exact Ha].
Defined.

Lemma summary_is_consistent_witness :
  0 <= success_count (summarize ten_outcomes) <= total_requests (summarize ten_outcomes) /\
  (0 <= error_rate (summarize ten_outcomes) <= 100)%Q.
Proof.
  destruct (summary_is_consistent ten_outcomes) as (H1 & H2 & _); [discriminate |].
  split; [exact H1 | exact H2].
Defined.

Lemma p95_within_latencies_witness :
  (10 <= p95_latency (summarize ten_outcomes) <= 100)%Q.
Proof.
  destruct (p95_within_latencies ten_outcomes 10 100) as (_ & H).
  - discriminate.
  - repeat constructor; discriminate.
  - exact H.
Defined.

Lemma p95_is_maximum_up_to_20_witness :
  Forall (fun m => latency m <= p95_latency (summarize ten_outcomes))%Q ten_outcomes.
Proof.
  apply (p95_is_maximum_up_to_20 ten_outcomes).
  - discriminate.
  - cbn. lia.
Defined.

Lemma fewer_than_5_percent_above_p95_witness :
  (20 * length (List.filter (fun x => gtb x (p95_latency (summarize ten_outcomes)))
                  (map latency ten_outcomes)) < length ten_outcomes)%nat.
Proof.
  apply (fewer_than_5_percent_above_p95 ten_outcomes). discriminate.
Defined.

Lemma no_rollback_when_canary_is_no_worse_witness :
  should_rollback (both (summary 2 10) (summary 1 9)) steady_world init = (false, init).
Proof.
  apply (no_rollback_when_canary_is_no_worse _ (summary 2 10) (summary 1 9));
    try reflexivity; discriminate.
Defined.

Lemma should_rollback_logs_its_reason_witness :
  Binary64.should_rollback (Binary64.both (Binary64.summary 2 10) (Binary64.summary 25 90))
    = (true, [ErrorRateSpike]) /\
  Binary64.should_rollback
    (Binary64.both (Binary64.summary 2 0x1.999999999999ap-4)
                   (Binary64.summary 2 0x1.3333333333335p-3))
    = (true, [LatencyDegradation]).
Proof.
  split.
  - apply (should_rollback_logs_its_reason
             _ (Binary64.summary 2 10) (Binary64.summary 25 90)); reflexivity.
  - apply (should_rollback_logs_its_reason
             _ (Binary64.summary 2 0x1.999999999999ap-4)
               (Binary64.summary 2 0x1.3333333333335p-3)); reflexivity.
Defined.

(** ** Runs with exceptions *)


Lemma simulate_traffic_only_appends_witness :
  (Checked.simulate_traffic 200 (calm (request steady_world)) Checked.init).1
  = Checked.Raised.
Proof.
  destruct (simulate_traffic_only_appends (calm (request steady_world)) Checked.init 200)
    as (new & _ & _ & _ & _ & _ & _ & _ & Hun).
  apply Hun; [reflexivity | reflexivity | lia].
Defined.

Lemma unreachable_run_does_nothing_witness :
  let w := half_connected (request steady_world) in
  Checked.trace (Checked.run w).2 = [Connected false] /\
  Checked.stable_conn (Checked.run w).2 = true.
Proof.
  intros w.
  destruct (unreachable_run_does_nothing w) as (_ & Ht & Hs & _); [reflexivity |].
  split; [exact Ht | exact Hs].
Defined.

Lemma run_ends_in_rollback_or_promotion_witness :
  let w := failing_promotion (request steady_world) in
  exists before,
    rollbacks before = 0%nat /\ promoted before = false /\
    (Checked.trace (Checked.run w).2 = before ++ [CanaryRolledBack] \/
     Checked.trace (Checked.run w).2 = before ++ [StablePromoted] \/
     (Checked.trace (Checked.run w).2 = before /\
      ((Checked.run w).1 = Checked.Returned tt ->
       Checked.stable_up w && Checked.canary_up w = false))).
Proof.
  intros w. apply (run_ends_in_rollback_or_promotion w).
Defined.

Lemma stages_run_in_order_witness :
  let w := calm (request steady_world) in
  queries (Checked.trace (Checked.run w).2)
  = (200 * reports (Checked.trace (Checked.run w).2))%nat.
Proof.
  intros w.
  destruct (stages_run_in_order w) as (_ & _ & _ & _ & H).
  destruct H as [H _]; [vm_compute; reflexivity | exact H].
Defined.

Lemma change_is_applied_once_before_traffic_witness :
  changes (Checked.trace (Checked.run (calm (request steady_world))).2) = 1%nat.
Proof.
  destruct (change_is_applied_once_before_traffic (calm (request steady_world)))
    as [_ H].
  apply H. left. vm_compute. discriminate.
Defined.

Lemma full_rollout_is_never_rolled_back_witness :
  rollbacks (Checked.trace (Checked.run (calm (request stray_world))).2) = 0%nat.
Proof.
  apply (full_rollout_is_never_rolled_back (calm (request stray_world))).
  vm_compute. right. right. left. reflexivity.
Defined.

Lemma healthy_canary_is_promoted_witness :
  let w := calm (request steady_world) in
  promoted (Checked.trace (Checked.run w).2) = true /\
  queries (Checked.trace (Checked.run w).2) = 600%nat.
Proof.
  intros w.
  destruct (healthy_canary_is_promoted w 5 5) as [_ H].
  - discriminate.
  - intros i _. cbn. repeat split; discriminate.
  - apply H; [vm_compute; reflexivity | reflexivity].
Defined.

Lemma failing_canary_is_rolled_back_at_first_stage_witness :
  let w := calm (request broken_canary_world) in
  promoted (Checked.trace (Checked.run w).2) = false /\
  rollbacks (Checked.trace (Checked.run w).2) = 1%nat /\
  queries (Checked.trace (Checked.run w).2) = 200%nat.
Proof.
  intros w.
  destruct (failing_canary_is_rolled_back_at_first_stage w 0 10) as (H1 & _ & _ & H2).
  - lia.
  - vm_compute. discriminate.
  - reflexivity.
  - lia.
  - vm_compute. reflexivity.
  - intros n _. cbn. intros Hd.
    destruct (Z.ltb_spec (Z.of_nat n mod 100) 10); [lia | reflexivity].
  - destruct H2 as (H3 & H4 & _); [vm_compute; reflexivity | reflexivity |].
    split; [exact H1 |]. split; [exact H3 | exact H4].
Defined.

Lemma index_after_run_witness :
  schema_after (Checked.trace (Checked.run (calm (request steady_world))).2)
    {| canary_index := false; stable_index := false |}
  = {| canary_index := true; stable_index := true |}.
Proof.
  destruct (index_after_run (calm (request steady_world))
              {| canary_index := false; stable_index := false |}) as [H _].
  apply H. vm_compute. reflexivity.
Defined.
